(** * The three-channel migration protocol of lxd (lxd/migrate.go)

    A shallow embedding of the migration source and sink engines:
    the wire messages of lxd/migration/migrate.proto, the string helpers of
    package shared, the websocket multiplexer [Connect], and the two [Do]
    procedures.  Calls that leave the process (websocket traffic, storage
    drivers, the checkpoint tool) are answered by an environment record and
    recorded in an event log, so that a run of [Do] is a function from the
    environment to an outcome and a log. *)

From Stdlib Require Import ZArith String Ascii List Bool Arith Lia.
Import ListNotations.
Local Open Scope string_scope.
Local Open Scope Z_scope.

(** ** Go values *)

(** A Go [error]: [os.ErrPermission], or a value built by [fmt.Errorf] from
    its format string.  Errors handed back by external calls are arbitrary
    values of this type; [nil] is [None : option error]. *)
Inductive error : Type :=
| ErrPermission
| Errorf (format : string).

(** Outcome of running a procedure: it returns, the goroutine blocks for
    ever (a channel or mutex that nobody will release), or it panics. *)
Inductive Res (A : Type) : Type :=
| Ret (a : A)
| Block
| Panic.
Arguments Ret {A} a.
Arguments Block {A}.
Arguments Panic {A}.

(** ** Integer conversions *)

(** Go's [int32(x)] on a wider signed integer keeps the low 32 bits and
    reads them in two's complement. *)
Definition int32 (x : Z) : Z :=
  let u := Z.land x (Z.ones 32) in
  if u <? 2 ^ 31 then u else u - 2 ^ 32.

(** Go's [int64(x)] on an [int32] sign-extends: the value is unchanged. *)
Definition int64 (x : Z) : Z := x.

Definition representable32 (x : Z) : Prop := - 2 ^ 31 <= x < 2 ^ 31.

(** ** package shared: snapshot names *)

Module shared.

Definition SnapshotDelimiter : string := "/".

(** [cut sep s] splits [s] around the first occurrence of [sep]
    (Go: [m := strings.Index(s, sep)], then [s[:m]] and [s[m+len(sep):]]). *)
Fixpoint drop (n : nat) (s : string) : string :=
  match n, s with
  | O, _ => s
  | S n', String _ s' => drop n' s'
  | S _, EmptyString => EmptyString
  end.

Fixpoint cut (sep s : string) : option (string * string) :=
  if prefix sep s then Some (EmptyString, drop (String.length sep) s)
  else match s with
       | EmptyString => None
       | String c s' =>
           match cut sep s' with
           | Some (a, b) => Some (String c a, b)
           | None => None
           end
       end.

(** [strings.SplitN(s, sep, 2)] for a non-empty separator: at most two
    pieces, cut at the first separator.  (Go's empty-separator branch is not
    reached: every caller passes [SnapshotDelimiter].) *)
Definition SplitN2 (s sep : string) : list string :=
  match cut sep s with
  | Some (a, b) => [a; b]
  | None => [s]
  end.

(** [strings.Contains]. *)
Definition Contains (s sep : string) : bool :=
  match cut sep s with Some _ => true | None => false end.

Definition IsSnapshot (name : string) : bool := Contains name SnapshotDelimiter.

(** [strings.SplitN(name, SnapshotDelimiter, 2)[1]]: indexing past the end
    of the slice panics, which is [None] here. *)
Definition ExtractSnapshotName (name : string) : option string :=
  nth_error (SplitN2 name SnapshotDelimiter) 1.

(** [path[len(path)-1]]: the last byte; indexing an empty string panics. *)
Fixpoint lastByte (s : string) : option ascii :=
  match s with
  | EmptyString => None
  | String c EmptyString => Some c
  | String _ s' => lastByte s'
  end.

(** AddSlash adds a slash to the end of paths if they don't already have
    one; [None] is the panic of the index expression. *)
Definition AddSlash (path : string) : option string :=
  match lastByte path with
  | None => None
  | Some c => if Ascii.eqb c "/" then Some path else Some (path ++ "/")
  end.

Fixpoint StringInSlice (key : string) (list : list string) : bool :=
  match list with
  | [] => false
  | entry :: rest => if String.eqb entry key then true else StringInSlice key rest
  end.

Definition between (lo hi c : ascii) : bool :=
  (nat_of_ascii lo <=? nat_of_ascii c)%nat && (nat_of_ascii c <=? nat_of_ascii hi)%nat.

Definition isDigit (c : ascii) : bool := between "0" "9" c.

(** The character class [-a-zA-Z0-9] of ValidHostname's regular
    expression. *)
Definition hostnameChar (c : ascii) : bool :=
  Ascii.eqb c "-" || between "a" "z" c || between "A" "Z" c || between "0" "9" c.

Fixpoint allChars (p : ascii -> bool) (s : string) : bool :=
  match s with
  | EmptyString => true
  | String c s' => p c && allChars p s'
  end.

(** ValidHostname.  [strconv.Atoi(string(name[0]))] succeeds exactly when
    the first byte is a decimal digit, and the regular expression
    "^[-a-zA-Z0-9]*$" accepts exactly the strings over its class. *)
Definition ValidHostname (name : string) : bool :=
  if (String.length name <? 1)%nat || (63 <? String.length name)%nat then false
  else if prefix "-" name then false
  else if (match name with String c _ => isDigit c | EmptyString => false end)
  then false
  else if (match lastByte name with
           | Some c => Ascii.eqb c "-"
           | None => false
           end)
  then false
  else allChars hostnameChar name.

(** EscapePathFstab: a strings.Replacer whose old strings are all single
    bytes replaces every byte on its own. *)
Definition escapeByte (c : ascii) : string :=
  if Ascii.eqb c " " then "\040"
  else if Ascii.eqb c (ascii_of_nat 9) then "\011"
  else if Ascii.eqb c (ascii_of_nat 10) then "\012"
  else if Ascii.eqb c "\" then "\\"
  else String c EmptyString.

Fixpoint EscapePathFstab (path : string) : string :=
  match path with
  | EmptyString => EmptyString
  | String c rest => escapeByte c ++ EscapePathFstab rest
  end.

End shared.

(** ** lxd/migration/migrate.proto *)

Inductive MigrationFSType : Type := RSYNC | BTRFS | ZFS.
Inductive CRIUType : Type := CRIU_RSYNC | PHAUL | NONE.

Definition MigrationFSType_eqb (a b : MigrationFSType) : bool :=
  match a, b with
  | RSYNC, RSYNC | BTRFS, BTRFS | ZFS, ZFS => true
  | _, _ => false
  end.

Definition CRIUType_eqb (a b : CRIUType) : bool :=
  match a, b with
  | CRIU_RSYNC, CRIU_RSYNC | PHAUL, PHAUL | NONE, NONE => true
  | _, _ => false
  end.

(** message IDMapType: the three numbers are [int32] on the wire. *)
Record IDMapType : Type := mkIDMapType {
  Isuid : bool;
  Isgid : bool;
  Hostid : Z;
  Nsid : Z;
  Maprange : Z
}.

(** shared/idmap.IdmapEntry: the same fields as [int64]. *)
Record IdmapEntry : Type := mkIdmapEntry {
  eIsuid : bool;
  eIsgid : bool;
  eHostid : Z;
  eNsid : Z;
  eMaprange : Z
}.

Record Config : Type := mkConfig {
  Key : string;
  Value : string
}.

(** ** Addressable string variables

    The generated message structs hold [*string] fields.  Where the code
    takes the address of a variable that is written again later (a [range]
    loop variable), the pointed-to cell matters, so the cells live in a
    store and the struct holds the address. *)
Definition ptr : Type := nat.
Definition store : Type := list string.

Definition load (p : ptr) (h : store) : string := nth p h "".

Definition alloc (v : string) (h : store) : ptr * store :=
  (length h, (h ++ [v])%list).

Fixpoint assign (p : ptr) (v : string) (h : store) : store :=
  match h, p with
  | [], _ => []
  | _ :: t, O => v :: t
  | x :: t, S p' => x :: assign p' v t
  end.

(** In-memory messages: [Name] fields are [*string]. *)
Record Device : Type := mkDevice {
  DevName : ptr;
  DevConfig : list Config
}.

Record Snapshot : Type := mkSnapshot {
  Name : ptr;
  LocalConfig : list Config;
  Profiles : list string;
  Ephemeral : bool;
  LocalDevices : list Device;
  Architecture : Z;
  Stateful : bool
}.

(** What a reader of the message sees (the getters, the wire encoder):
    every pointer followed in the current store. *)
Record DeviceV : Type := mkDeviceV {
  vDevName : string;
  vDevConfig : list Config
}.

Record SnapshotV : Type := mkSnapshotV {
  vName : string;
  vLocalConfig : list Config;
  vProfiles : list string;
  vEphemeral : bool;
  vLocalDevices : list DeviceV;
  vArchitecture : Z;
  vStateful : bool
}.

Definition readDevice (h : store) (d : Device) : DeviceV :=
  mkDeviceV (load (DevName d) h) (DevConfig d).

Definition readSnapshot (h : store) (s : Snapshot) : SnapshotV :=
  mkSnapshotV (load (Name s) h) (LocalConfig s) (Profiles s) (Ephemeral s)
    (map (readDevice h) (LocalDevices s)) (Architecture s) (Stateful s).

(** message MigrationHeader, as it travels. *)
Record MigrationHeader : Type := mkMigrationHeader {
  Fs : MigrationFSType;
  Criu : option CRIUType;
  Idmap : list IDMapType;
  SnapshotNames : list string;
  Snapshots : list SnapshotV
}.

Record MigrationControl : Type := mkMigrationControl {
  Success : bool;
  Message : option string
}.

(** ** The container interface

    The observers of the Go interface [container] that the migration code
    reads.  A Go map is listed in the order in which [range] visits it. *)
Record container : Type := mkContainer {
  cName : string;
  cLocalConfig : list (string * string);
  cLocalDevices : list (string * list (string * string));
  cProfiles : list string;
  cIsEphemeral : bool;
  cArchitecture : Z;
  cIsStateful : bool
}.

(** ** Events *)

Definition Conn : Type := nat.

Inductive DriverId : Type := OwnDriver | RsyncDriver.

Inductive MigrateCmd : Type := MIGRATE_DUMP | MIGRATE_RESTORE.

Inductive Event : Type :=
| EvUpgrade (r : error + Conn)
| EvDial (secret : string)
| EvProtoSend (c : option Conn) (h : MigrationHeader)
| EvProtoRecv (c : option Conn)
| EvProtoSendControl (c : option Conn) (err : option error)
| EvWriteClose (c : Conn)
| EvClose (c : Conn)
| EvStorageStart
| EvStorageStop
| EvSendWhileRunning (d : DriverId)
| EvSendAfterCheckpoint (d : DriverId)
| EvCleanup (d : DriverId)
| EvTempDir (pattern : string)
| EvRemoveAll (dir : string)
| EvOperationCreate
| EvWriteActionScript (dir : string)
| EvOperationRun
| EvMigrate (cmd : MigrateCmd) (stateDir : string) (stop actionScript : bool)
| EvRsyncSend (dir : string)
| EvRsyncRecv (dir : string)
| EvDelete
| EvTemplateApply (trigger : string)
| EvMigrationSink (d : DriverId) (live : bool) (snapshots : list SnapshotV)
    (srcIdmap : list IdmapEntry)
| EvShiftIfNecessary (srcIdmap : list IdmapEntry).

(** ** migrationFields and the state of a run *)

Record migrationFields : Type := mkFields {
  live : bool;
  controlSecret : string;
  controlConn : option Conn;
  controlLock : bool;             (* sync.Mutex: [true] while held *)
  criuSecret : string;
  criuConn : option Conn;
  fsSecret : string;
  fsConn : option Conn;
  container_ : container
}.

Record World : Type := mkWorld {
  fields : migrationFields;
  allConnected : nat;             (* values buffered in the chan bool, capacity 1 *)
  mem : store;
  log : list Event;               (* calls made by the goroutine running Do / Connect *)
  worker : list Event             (* calls made by the goroutines it starts *)
}.

Definition set_fields (f : migrationFields) (w : World) : World :=
  mkWorld f (allConnected w) (mem w) (log w) (worker w).
Definition set_allConnected (n : nat) (w : World) : World :=
  mkWorld (fields w) n (mem w) (log w) (worker w).
Definition set_mem (h : store) (w : World) : World :=
  mkWorld (fields w) (allConnected w) h (log w) (worker w).

Definition set_controlConn (c : option Conn) (f : migrationFields) :=
  mkFields (live f) (controlSecret f) c (controlLock f) (criuSecret f)
    (criuConn f) (fsSecret f) (fsConn f) (container_ f).
Definition set_controlLock (b : bool) (f : migrationFields) :=
  mkFields (live f) (controlSecret f) (controlConn f) b (criuSecret f)
    (criuConn f) (fsSecret f) (fsConn f) (container_ f).
Definition set_criuConn (c : option Conn) (f : migrationFields) :=
  mkFields (live f) (controlSecret f) (controlConn f) (controlLock f)
    (criuSecret f) c (fsSecret f) (fsConn f) (container_ f).
Definition set_fsConn (c : option Conn) (f : migrationFields) :=
  mkFields (live f) (controlSecret f) (controlConn f) (controlLock f)
    (criuSecret f) (criuConn f) (fsSecret f) c (container_ f).

(** ** The monad of a goroutine: state, and an outcome that may be a
    return, a block or a panic. *)
Definition M (A : Type) : Type := World -> Res A * World.

Definition ret {A} (a : A) : M A := fun w => (Ret a, w).
Definition block {A} : M A := fun w => (Block, w).
Definition panic {A} : M A := fun w => (Panic, w).

Definition bind {A B} (m : M A) (k : A -> M B) : M B :=
  fun w =>
    match m w with
    | (Ret a, w') => k a w'
    | (Block, w') => (Block, w')
    | (Panic, w') => (Panic, w')
    end.

Notation "x <- m ;; k" := (bind m (fun x => k))
  (at level 61, m at next level, right associativity).
Notation "m ;; k" := (bind m (fun _ => k))
  (at level 61, right associativity).

(** [defer d body]: the deferred call runs when the body returns and when
    it panics, not while it is blocked. *)
Definition defer {A} (d : M unit) (body : M A) : M A :=
  fun w =>
    match body w with
    | (Ret a, w') =>
        match d w' with
        | (Ret _, w'') => (Ret a, w'')
        | (Block, w'') => (Block, w'')
        | (Panic, w'') => (Panic, w'')
        end
    | (Panic, w') =>
        match d w' with
        | (Block, w'') => (Block, w'')
        | (_, w'') => (Panic, w'')
        end
    | (Block, w') => (Block, w')
    end.

Definition emit (e : Event) : M unit :=
  fun w => (Ret tt, mkWorld (fields w) (allConnected w) (mem w)
                      (log w ++ [e])%list (worker w)).
Definition emitWorker (es : list Event) : M unit :=
  fun w => (Ret tt, mkWorld (fields w) (allConnected w) (mem w)
                      (log w) (worker w ++ es)%list).
Definition getFields : M migrationFields := fun w => (Ret (fields w), w).
Definition modFields (g : migrationFields -> migrationFields) : M unit :=
  fun w => (Ret tt, set_fields (g (fields w)) w).
Definition getMem : M store := fun w => (Ret (mem w), w).

(** A computation on the store alone; [None] is a run-time panic. *)
Definition liftStore {A} (g : store -> option A * store) : M A :=
  fun w =>
    match g (mem w) with
    | (Some a, h) => (Ret a, set_mem h w)
    | (None, h) => (Panic, set_mem h w)
    end.

(** sync.Mutex: locking a held mutex blocks; it is not re-entrant. *)
Definition Lock : M unit :=
  fun w =>
    if controlLock (fields w) then (Block, w)
    else (Ret tt, set_fields (set_controlLock true (fields w)) w).
Definition Unlock : M unit := modFields (set_controlLock false).

(** A buffered channel of capacity 1 holding [n] values. *)
Definition chanSend : M unit :=
  fun w =>
    match allConnected w with
    | O => (Ret tt, set_allConnected 1 w)
    | S _ => (Block, w)
    end.
Definition chanRecv : M unit :=
  fun w =>
    match allConnected w with
    | O => (Block, w)
    | S n => (Ret tt, set_allConnected n w)
    end.

(** ** migrationFields: send, recv, disconnect, sendControl *)

(** [send]: lock, defer unlock, [migration.ProtoSend(c.controlConn, m)].
    [res] is what ProtoSend returns. *)
Definition send (m : MigrationHeader) (res : option error) : M (option error) :=
  Lock ;;
  defer Unlock
    (f <- getFields ;;
     emit (EvProtoSend (controlConn f) m) ;;
     match res with
     | Some err => ret (Some err)
     | None => ret None
     end).

(** [recv]: [migration.ProtoRecv(c.controlConn, m)]; [res] is the error or
    the decoded message. *)
Definition recv {A} (res : error + A) : M (error + A) :=
  f <- getFields ;;
  emit (EvProtoRecv (controlConn f)) ;;
  ret res.

Definition disconnect : M unit :=
  Lock ;;
  f <- getFields ;;
  match controlConn f with
  | Some c =>
      emit (EvWriteClose c) ;;
      modFields (set_controlConn None)   (* don't close twice *)
  | None => ret tt
  end ;;
  Unlock ;;
  f <- getFields ;;
  match fsConn f with
  | Some c => emit (EvClose c)
  | None => ret tt
  end ;;
  match criuConn f with
  | Some c => emit (EvClose c)
  | None => ret tt
  end.

Definition sendControl (err : option error) : M unit :=
  Lock ;;
  defer Unlock
    (f <- getFields ;;
     emit (EvProtoSendControl (controlConn f) err) ;;
     match err with
     | Some _ => disconnect
     | None => ret tt
     end).

(** ** migrationSourceWs.Connect *)

Inductive Slot : Type := SlotControl | SlotCriu | SlotFs.

(** The [switch secret] of Connect: cases are tried in source order. *)
Definition slotOf (f : migrationFields) (secret : string) : option Slot :=
  if String.eqb secret (controlSecret f) then Some SlotControl
  else if String.eqb secret (criuSecret f) then Some SlotCriu
  else if String.eqb secret (fsSecret f) then Some SlotFs
  else None.

Definition setSlot (sl : Slot) (c : Conn) : M unit :=
  match sl with
  | SlotControl => modFields (set_controlConn (Some c))
  | SlotCriu => modFields (set_criuConn (Some c))
  | SlotFs => modFields (set_fsConn (Some c))
  end.

Definition isSome {A} (o : option A) : bool :=
  match o with Some _ => true | None => false end.

(** [secret] is [r.FormValue("secret")]; [upgrade] is what
    [shared.WebsocketUpgrader.Upgrade] returns if it is called. *)
Definition Connect (secret : string) (upgrade : error + Conn) : M (option error) :=
  if String.eqb secret "" then ret (Some (Errorf "missing secret"))
  else
    f <- getFields ;;
    match slotOf f secret with
    | None =>
        (* the user provided a bad secret: 403, not 404 *)
        ret (Some ErrPermission)
    | Some sl =>
        emit (EvUpgrade upgrade) ;;
        match upgrade with
        | inl err => ret (Some err)
        | inr c =>
            setSlot sl c ;;
            f <- getFields ;;
            (if isSome (controlConn f)
                && (negb (live f) || isSome (criuConn f))
                && isSome (fsConn f)
             then chanSend else ret tt) ;;
            ret None
        end
    end.

(** ** snapshotToProtobuf *)

Definition configOf (kv : string * string) : Config :=
  mkConfig (fst kv) (snd kv).

(** [for name, d := range c.LocalDevices()]: [name] is one variable for the
    whole loop, and every Device takes its address. *)
Fixpoint rangeDevices (name : ptr) (l : list (string * list (string * string)))
    (h : store) : list Device * store :=
  match l with
  | [] => ([], h)
  | (k, d) :: t =>
      let h1 := assign name k h in
      let props := map configOf d in
      let '(devices, h2) := rangeDevices name t h1 in
      (mkDevice name props :: devices, h2)
  end.

Definition snapshotToProtobuf (c : container) (h : store) : Snapshot * store :=
  let config := map configOf (cLocalConfig c) in
  let '(name, h1) := alloc "" h in
  let '(devices, h2) := rangeDevices name (cLocalDevices c) h1 in
  let parts := shared.SplitN2 (cName c) shared.SnapshotDelimiter in
  let isEphemeral := cIsEphemeral c in
  let arch := int32 (cArchitecture c) in
  let stateful := cIsStateful c in
  let '(pname, h3) := alloc (last parts "") h2 in   (* &parts[len(parts)-1] *)
  (mkSnapshot pname config (cProfiles c) isEphemeral devices arch stateful, h3).

(** ** migrationSourceWs.Do *)

(** What a MigrationStorageSourceDriver answers. *)
Record SourceDriver : Type := mkSourceDriver {
  Snapshots_ : list container;
  SendWhileRunning : option error;
  SendAfterCheckpoint : option error
}.

(** The answers of everything [Do] calls outside migrate.go, on the source. *)
Record SourceEnv : Type := mkSourceEnv {
  StorageStart : option error;
  IdmapSet : error + option (list IdmapEntry);
  MigrationSource : error + SourceDriver;       (* (driver, fsErr) *)
  MigrationType : MigrationFSType;
  sendHeader : option error;                    (* s.send(&header) *)
  recvHeader : error + MigrationHeader;         (* s.recv(&header) *)
  rsyncMigrationSource : option SourceDriver;   (* None: a nil driver came back *)
  TempDir : error + string;
  RuntimeLiblxcVersionAtLeast_2_0_4 : bool;
  RandomCryptoString : error + string;
  operationCreate : error + string;             (* the url of the operation *)
  writeActionScriptRes : option error;
  actionScriptOpRun : option error;
  dumpDoneFirst : bool;         (* which case of the select is ready first *)
  Migrate : option error;
  RsyncSend : option error;
  recvControl : error + MigrationControl        (* s.recv(&msg) *)
}.

(** Source lines 293-303: each 64-bit number is narrowed to int32. *)
Definition idmapToProto (e : IdmapEntry) : IDMapType :=
  mkIDMapType (eIsuid e) (eIsgid e)
    (int32 (eHostid e)) (int32 (eNsid e)) (int32 (eMaprange e)).

(** Source lines 313-317: descriptors and names of the driver's snapshots. *)
Fixpoint rangeSnapshots (fullSnaps : list container) (h : store)
    : option (list Snapshot * list string) * store :=
  match fullSnaps with
  | [] => (Some ([], []), h)
  | snap :: rest =>
      let '(p, h1) := snapshotToProtobuf snap h in
      match shared.ExtractSnapshotName (cName snap) with
      | None => (None, h1)
      | Some n =>
          match rangeSnapshots rest h1 with
          | (Some (snapshots, snapshotNames), h2) =>
              (Some (p :: snapshots, n :: snapshotNames), h2)
          | (None, h2) => (None, h2)
          end
      end
  end.

(** The closure [abort] of Do. *)
Definition abort (d : DriverId) (err : option error) : M (option error) :=
  emit (EvCleanup d) ;;
  sendControl err ;;
  ret err.

(** Source lines 520-541.  [dumpPending] says whether the goroutine that
    runs the dump will still write to [dumpSuccess]. *)
Definition finish (env : SourceEnv) (d : DriverId) (dumpPending : bool)
    : M (option error) :=
  emit (EvCleanup d) ;;
  r <- recv (recvControl env) ;;
  match r with
  | inl err => disconnect ;; ret (Some err)
  | inr msg =>
      f <- getFields ;;
      (if live f
       then (* restoreSuccess <- *msg.Success; err := <-dumpSuccess *)
            if dumpPending then ret tt else block
       else ret tt) ;;
      if Success msg then ret None
      else match Message msg with
           | Some m => ret (Some (Errorf m))
           | None => panic
           end
  end.

(** Source lines 507-518, then the tail. *)
Definition afterDump (env : SourceEnv) (d : DriverId) (drv : SourceDriver)
    (checkpointDir : string) (dumpPending : bool) : M (option error) :=
  emit (EvRsyncSend checkpointDir) ;;
  match RsyncSend env with
  | Some err => abort d (Some err)
  | None =>
      emit (EvSendAfterCheckpoint d) ;;
      match SendAfterCheckpoint drv with
      | Some err => abort d (Some err)
      | None => finish env d dumpPending
      end
  end.

(** Source lines 387-482: the dump with an action script. *)
Definition dumpWithActionScript (env : SourceEnv) (d : DriverId)
    (drv : SourceDriver) (checkpointDir : string) : M (option error) :=
  match RandomCryptoString env with
  | inl err => emit (EvRemoveAll checkpointDir) ;; abort d (Some err)
  | inr actionScriptOpSecret =>
      emit EvOperationCreate ;;
      match operationCreate env with
      | inl err => emit (EvRemoveAll checkpointDir) ;; abort d (Some err)
      | inr url =>
          emit (EvWriteActionScript checkpointDir) ;;
          match writeActionScriptRes env with
          | Some err => emit (EvRemoveAll checkpointDir) ;; abort d (Some err)
          | None =>
              emit EvOperationRun ;;
              match actionScriptOpRun env with
              | Some err =>
                  emit (EvRemoveAll checkpointDir) ;; abort d (Some err)
              | None =>
                  (* go func() { dumpSuccess <- Migrate(...); RemoveAll } *)
                  emitWorker [EvMigrate MIGRATE_DUMP checkpointDir true true;
                              EvRemoveAll checkpointDir] ;;
                  if dumpDoneFirst env
                  then afterDump env d drv checkpointDir true
                  else abort d (Migrate env)
              end
          end
      end
  end.

(** Source lines 485-498: the synchronous dump of an old liblxc. *)
Definition dumpWithoutActionScript (env : SourceEnv) (d : DriverId)
    (drv : SourceDriver) (checkpointDir : string) : M (option error) :=
  defer (emit (EvRemoveAll checkpointDir))
    (emit (EvMigrate MIGRATE_DUMP checkpointDir true false) ;;
     match Migrate env with
     | Some err => abort d (Some err)
     | None => afterDump env d drv checkpointDir false
     end).

(** Source lines 368-541, with [driver] and the echoed header in hand. *)
Definition transfer (env : SourceEnv) (driver : option (DriverId * SourceDriver))
    (header : MigrationHeader) : M (option error) :=
  match driver with
  | None => panic                       (* method call on a nil interface *)
  | Some (d, drv) =>
      emit (EvSendWhileRunning d) ;;
      match SendWhileRunning drv with
      | Some err => abort d (Some err)
      | None =>
          f <- getFields ;;
          if live f then
            match Criu header with
            | None =>
                abort d (Some (Errorf "Got no CRIU socket type for live migration"))
            | Some t =>
                if negb (CRIUType_eqb t CRIU_RSYNC) then
                  abort d (Some (Errorf "Formats other than criu rsync not understood"))
                else
                  emit (EvTempDir "lxd_checkpoint_") ;;
                  match TempDir env with
                  | inl err => abort d (Some err)
                  | inr checkpointDir =>
                      if RuntimeLiblxcVersionAtLeast_2_0_4 env
                      then dumpWithActionScript env d drv checkpointDir
                      else dumpWithoutActionScript env d drv checkpointDir
                  end
            end
          else finish env d false
      end
  end.

(** Source lines 348-353: the echoed fs type differs from ours. *)
Definition renegotiate (env : SourceEnv) (myType : MigrationFSType)
    (own : SourceDriver) (header : MigrationHeader)
    : MigrationFSType * MigrationHeader * option (DriverId * SourceDriver) :=
  if negb (MigrationFSType_eqb (Fs header) myType) then
    let myType := RSYNC in
    let header :=
      mkMigrationHeader myType (Criu header) (Idmap header)
        (SnapshotNames header) (Snapshots header) in
    let driver :=
      match rsyncMigrationSource env with
      | Some drv => Some (RsyncDriver, drv)
      | None => None
      end in
    (myType, header, driver)
  else (myType, header, Some (OwnDriver, own)).

(** Source lines 285-366. *)
Definition handshake (env : SourceEnv) (criuType : option CRIUType)
    : M (option error) :=
  match IdmapSet env with
  | inl err => ret (Some err)
  | inr idmapset =>
      let idmaps :=
        match idmapset with
        | Some l => map idmapToProto l
        | None => []
        end in
      let fsRes := MigrationSource env in
      lists <- match fsRes with
               | inr driver => liftStore (rangeSnapshots (Snapshots_ driver))
               | inl _ => ret ([], [])
               end ;;
      let '(snapshots, snapshotNames) := lists in
      let myType := MigrationType env in
      h <- getMem ;;
      let header :=
        mkMigrationHeader myType criuType idmaps snapshotNames
          (map (readSnapshot h) snapshots) in
      err <- send header (sendHeader env) ;;
      match err with
      | Some err => sendControl (Some err) ;; ret (Some err)
      | None =>
          match fsRes with
          | inl fsErr => sendControl (Some fsErr) ;; ret (Some fsErr)
          | inr own =>
              r <- recv (recvHeader env) ;;
              match r with
              | inl err => sendControl (Some err) ;; ret (Some err)
              | inr header =>
                  let '(_, header, driver) := renegotiate env myType own header in
                  transfer env driver header
              end
          end
      end
  end.

Module Source.

Definition Do (env : SourceEnv) : M (option error) :=
  chanRecv ;;                                    (* <-s.allConnected *)
  f <- getFields ;;
  if negb (live f) then
    emit EvStorageStart ;;
    match StorageStart env with
    | Some err => ret (Some err)
    | None => defer (emit EvStorageStop) (handshake env None)
    end
  else handshake env (Some CRIU_RSYNC).

End Source.

(** ** migrationSink.Do *)

Record SinkEnv : Type := mkSinkEnv {
  dialControl : error + Conn;
  dialFs : error + Conn;
  dialCriu : error + Conn;
  sinkRecvHeader : error + MigrationHeader;     (* c.src.recv(&header) *)
  sinkMigrationType : MigrationFSType;
  sinkSend : option error;                      (* c.src.send(&resp) *)
  MigrationSinkRes : option error;              (* the storage's own sink *)
  rsyncMigrationSinkRes : option error;
  ShiftIfNecessary : option error;
  sinkTempDir : error + string;
  RsyncRecv : option error;
  sinkMigrate : option error;
  (* What the channel of controlChannel() delivers before [restore] does:
     nothing, its closing ([Some None]), or the one message it can carry. *)
  sourceFirst : option (option MigrationControl);
  TemplateApply : option error
}.

(** Modelled from the spec: idmap.Extend of package shared/idmap, which is
    not under src/.  The spec's IDMap is an ordered list of entries;
    Extend returns the slice with the entry added at its end. *)
Definition Extend (slice : list IdmapEntry) (element : IdmapEntry)
    : list IdmapEntry :=
  (slice ++ [element])%list.

(** Source lines 667-675: each int32 is widened back to int64. *)
Definition idmapOfProto (p : IDMapType) : IdmapEntry :=
  mkIdmapEntry (Isuid p) (Isgid p)
    (int64 (Hostid p)) (int64 (Nsid p)) (int64 (Maprange p)).

Definition srcIdmapOf (header : MigrationHeader) : list IdmapEntry :=
  fold_left (fun acc idmapSet => Extend acc (idmapOfProto idmapSet))
    (Idmap header) [].

Definition set_Name (p : ptr) (s : Snapshot) : Snapshot :=
  mkSnapshot p (LocalConfig s) (Profiles s) (Ephemeral s) (LocalDevices s)
    (Architecture s) (Stateful s).

(** Source lines 692-696: [for _, name := range header.SnapshotNames];
    [name] is one variable for the whole loop and [base.Name = &name]. *)
Fixpoint rangeSnapshotNames (name : ptr) (names : list string) (c : container)
    (h : store) : list Snapshot * store :=
  match names with
  | [] => ([], h)
  | n :: rest =>
      let h1 := assign name n h in
      let '(base, h2) := snapshotToProtobuf c h1 in
      let base := set_Name name base in
      let '(snapshots, h3) := rangeSnapshotNames name rest c h2 in
      (base :: snapshots, h3)
  end.

Definition legacySnapshots (names : list string) (c : container) (h : store)
    : option (list Snapshot) * store :=
  let '(name, h1) := alloc "" h in
  let '(snapshots, h2) := rangeSnapshotNames name names c h1 in
  (Some snapshots, h2).

(** Source lines 685-699: the descriptors handed to the storage sink, as
    the sink reads them when it is called. *)
Definition sinkSnapshots (header : MigrationHeader) (c : container)
    : M (list SnapshotV) :=
  if negb (Nat.eqb (length (SnapshotNames header)) (length (Snapshots header)))
  then
    snapshots <- liftStore (legacySnapshots (SnapshotNames header) c) ;;
    h <- getMem ;;
    ret (map (readSnapshot h) snapshots)
  else ret (Snapshots header).

(** Source lines 684-714: the goroutine writing to [fsTransfer]. *)
Definition fsReceive (env : SinkEnv) (mySink : DriverId)
    (header : MigrationHeader) (srcIdmap : list IdmapEntry) : M (option error) :=
  f <- getFields ;;
  snapshots <- sinkSnapshots header (container_ f) ;;
  emitWorker [EvMigrationSink mySink (live f) snapshots srcIdmap] ;;
  match (match mySink with
         | OwnDriver => MigrationSinkRes env
         | RsyncDriver => rsyncMigrationSinkRes env
         end) with
  | Some err => ret (Some err)
  | None =>
      emitWorker [EvShiftIfNecessary srcIdmap] ;;
      match ShiftIfNecessary env with
      | Some err => ret (Some err)
      | None => ret None
      end
  end.

(** Source lines 663-757: the goroutine writing to [restore], up to its
    write.  [restore] is unbuffered, so the goroutine stays at
    [restore <- x] until Do takes the value: the result is the value it
    offers, together with the directory that its deferred os.RemoveAll
    removes once the value has been taken and the goroutine returns (none
    before the defer statement is reached). *)
Definition restoreWorker (env : SinkEnv) (mySink : DriverId)
    (header : MigrationHeader) : M (option error * option string) :=
  let srcIdmap := srcIdmapOf header in
  fsTransfer <- fsReceive env mySink header srcIdmap ;;
  f <- getFields ;;
  if live f then
    emitWorker [EvTempDir "lxd_restore_"] ;;
    match sinkTempDir env with
    | inl err => ret (Some err, None)
    | inr imagesDir =>
        (* defer os.RemoveAll(imagesDir) *)
        emitWorker [EvRsyncRecv imagesDir] ;;
        match RsyncRecv env with
        | Some err => ret (Some err, Some imagesDir)
        | None =>
            match fsTransfer with
            | Some err => ret (Some err, Some imagesDir)
            | None =>
                emitWorker [EvMigrate MIGRATE_RESTORE imagesDir false false] ;;
                match sinkMigrate env with
                | Some err => ret (Some err, Some imagesDir)
                | None => ret (None, Some imagesDir)
                end
            end
        end
    end
  else
    match fsTransfer with
    | Some err => ret (Some err, None)
    | None => ret (None, None)
    end.

(** [case err = <-restore] of the select.  Taking the value lets the
    goroutine return, and its deferred os.RemoveAll runs. *)
Definition onRestore (restore : option error * option string)
    : M (option error) :=
  let '(err, deferred) := restore in
  match deferred with
  | Some imagesDir => emitWorker [EvRemoveAll imagesDir]
  | None => ret tt
  end ;;
  sendControl err ;;
  match err with
  | Some e => emit EvDelete ;; ret (Some e)
  | None => ret None
  end.

(** Source lines 759-792.  The channel of controlChannel() carries at most
    one message and is closed only on a read error, so after a [Success]
    message only [restore] can become ready.  When Do leaves through the
    [source] case nobody takes the value of [restore]: the goroutine stays
    blocked and its deferred call never runs. *)
Definition selectLoop (env : SinkEnv) (restore : option error * option string)
    : M (option error) :=
  match sourceFirst env with
  | None => onRestore restore
  | Some None =>
      disconnect ;;
      emit EvDelete ;;
      ret (Some (Errorf "Got error reading source"))
  | Some (Some msg) =>
      if negb (Success msg) then
        disconnect ;;
        emit EvDelete ;;
        match Message msg with
        | Some m => ret (Some (Errorf m))
        | None => panic
        end
      else
        emit (EvTemplateApply "copy") ;;
        match TemplateApply env with
        | Some err => emit EvDelete ;; ret (Some err)
        | None => onRestore restore
        end
  end.

(** [connectWithSecret]: [res] is what the dialer returns. *)
Definition connectWithSecret (secret : string) (res : error + Conn)
    : M (error + Conn) :=
  emit (EvDial secret) ;;
  ret res.

(** Source lines 640-653: the sink's choice of receiver and echoed type. *)
Definition chooseSink (headerFs myType : MigrationFSType)
    : DriverId * MigrationFSType :=
  if negb (MigrationFSType_eqb headerFs myType)
  then (RsyncDriver, RSYNC)
  else (OwnDriver, myType).

(** Source lines 628-792. *)
Definition sinkAfterDial (env : SinkEnv) : M (option error) :=
  r <- recv (sinkRecvHeader env) ;;
  match r with
  | inl err => emit EvDelete ;; sendControl (Some err) ;; ret (Some err)
  | inr header =>
      f <- getFields ;;
      let criuType := if negb (live f) then None else Some CRIU_RSYNC in
      let '(mySink, myType) := chooseSink (Fs header) (sinkMigrationType env) in
      let resp := mkMigrationHeader myType criuType [] [] [] in
      err <- send resp (sinkSend env) ;;
      match err with
      | Some err => emit EvDelete ;; sendControl (Some err) ;; ret (Some err)
      | None =>
          restore <- restoreWorker env mySink header ;;
          selectLoop env restore
      end
  end.

Module Sink.

Definition Do (env : SinkEnv) : M (option error) :=
  f <- getFields ;;
  r <- connectWithSecret (controlSecret f) (dialControl env) ;;
  match r with
  | inl err =>
      modFields (set_controlConn None) ;;
      emit EvDelete ;;
      ret (Some err)
  | inr c =>
      modFields (set_controlConn (Some c)) ;;
      defer disconnect
        (r <- connectWithSecret (fsSecret f) (dialFs env) ;;
         match r with
         | inl err =>
             modFields (set_fsConn None) ;;
             emit EvDelete ;;
             sendControl (Some err) ;;
             ret (Some err)
         | inr c =>
             modFields (set_fsConn (Some c)) ;;
             if live f then
               r <- connectWithSecret (criuSecret f) (dialCriu env) ;;
               match r with
               | inl err =>
                   modFields (set_criuConn None) ;;
                   emit EvDelete ;;
                   sendControl (Some err) ;;
                   ret (Some err)
               | inr c =>
                   modFields (set_criuConn (Some c)) ;;
                   sinkAfterDial env
               end
             else sinkAfterDial env
         end)
  end.

End Sink.

(** ** Constructors *)

(** A Go [map[string]string] read by key. *)
Fixpoint lookup (k : string) (m : list (string * string)) : option string :=
  match m with
  | [] => None
  | (k', v) :: rest => if String.eqb k k' then Some v else lookup k rest
  end.

Definition or_empty (o : option string) : string :=
  match o with Some v => v | None => "" end.

(** NewMigrationSink; [criuInstalled] is whether exec.LookPath("criu")
    succeeds. *)
Definition NewMigrationSink (Container : container)
    (Secrets : list (string * string)) (criuInstalled : bool)
    : error + migrationFields :=
  match lookup "control" Secrets with
  | None => inl (Errorf "Missing control secret")
  | Some control =>
      match lookup "fs" Secrets with
      | None => inl (Errorf "Missing fs secret")
      | Some fs =>
          let criu := lookup "criu" Secrets in
          let live := isSome criu in
          if live && negb criuInstalled then
            inl (Errorf "Unable to perform container live migration. CRIU isn't installed on the destination server.")
          else
            inr (mkFields live control None false (or_empty criu) None fs None
                   Container)
      end
  end.

(** NewMigrationSource; the three secrets are what
    shared.RandomCryptoString returns on each call. *)
Definition NewMigrationSource (c : container) (IsRunning criuInstalled : bool)
    (rand1 rand2 rand3 : error + string) : error + migrationFields :=
  match rand1 with
  | inl err => inl err
  | inr control =>
      match rand2 with
      | inl err => inl err
      | inr fs =>
          if IsRunning then
            if negb criuInstalled then
              inl (Errorf "Unable to perform container live migration. CRIU isn't installed on the source server.")
            else
              match rand3 with
              | inl err => inl err
              | inr criu => inr (mkFields true control None false criu None fs None c)
              end
          else inr (mkFields false control None false "" None fs None c)
      end
  end.

(** The state a goroutine starts from: nothing buffered, nothing logged. *)
Definition start (f : migrationFields) : World := mkWorld f 0 [] [] [].

(** A source on which control, fs and (if live) criu have been attached. *)
Definition attached (f : migrationFields) (control fs criu : Conn) : World :=
  mkWorld
    (set_fsConn (Some fs)
       (set_criuConn (if live f then Some criu else criuConn f)
          (set_controlConn (Some control) f)))
    1 [] [] [].

(** ** Reading a log *)

Definition isCleanup (e : Event) : bool :=
  match e with EvCleanup _ => true | _ => false end.
Definition isSendWhileRunning (e : Event) : bool :=
  match e with EvSendWhileRunning _ => true | _ => false end.
Definition isProtoSend (e : Event) : bool :=
  match e with EvProtoSend _ _ => true | _ => false end.
Definition isSendControl (e : Event) : bool :=
  match e with EvProtoSendControl _ _ => true | _ => false end.
Definition isDelete (e : Event) : bool :=
  match e with EvDelete => true | _ => false end.
Definition isUpgrade (e : Event) : bool :=
  match e with EvUpgrade _ => true | _ => false end.
Definition isCheckpoint (e : Event) : bool :=
  match e with
  | EvTempDir _ | EvMigrate _ _ _ _ | EvOperationCreate | EvWriteActionScript _
  | EvOperationRun | EvRsyncSend _ => true
  | _ => false
  end.
(** Calls made on the storage's own driver, as opposed to the rsync one. *)
Definition usesOwnDriver (e : Event) : bool :=
  match e with
  | EvSendWhileRunning OwnDriver | EvSendAfterCheckpoint OwnDriver
  | EvCleanup OwnDriver | EvMigrationSink OwnDriver _ _ _ => true
  | _ => false
  end.

Definition count (p : Event -> bool) (l : list Event) : nat :=
  length (filter p l).

(** The headers written by ProtoSend, the errors passed to
    ProtoSendControl, and the receivers called, in order. *)
Definition sentHeaders (l : list Event) : list MigrationHeader :=
  flat_map (fun e => match e with EvProtoSend _ h => [h] | _ => [] end) l.
Definition sentControls (l : list Event) : list (option error) :=
  flat_map (fun e => match e with EvProtoSendControl _ err => [err] | _ => [] end) l.
Definition sinkCalls (l : list Event)
    : list (DriverId * list SnapshotV * list IdmapEntry) :=
  flat_map (fun e => match e with
                     | EvMigrationSink d _ s m => [(d, s, m)]
                     | _ => []
                     end) l.

Definition slotConn (sl : Slot) (f : migrationFields) : option Conn :=
  match sl with
  | SlotControl => controlConn f
  | SlotCriu => criuConn f
  | SlotFs => fsConn f
  end.

(** The condition of Connect's last [if] (source line 205): every channel
    the operation expects is attached. *)
Definition allAttached (f : migrationFields) : bool :=
  isSome (controlConn f) && (negb (live f) || isSome (criuConn f))
  && isSome (fsConn f).

(** The fields after [*conn = c] for the slot [sl]. *)
Definition rebind (sl : Slot) (c : Conn) (f : migrationFields)
    : migrationFields :=
  match sl with
  | SlotControl => set_controlConn (Some c) f
  | SlotCriu => set_criuConn (Some c) f
  | SlotFs => set_fsConn (Some c) f
  end.

(** The descriptor a reader sees right after [snapshotToProtobuf c]. *)
Definition descriptorOf (c : container) : SnapshotV :=
  let '(s, h) := snapshotToProtobuf c [] in readSnapshot h s.

Definition withName (n : string) (v : SnapshotV) : SnapshotV :=
  mkSnapshotV n (vLocalConfig v) (vProfiles v) (vEphemeral v)
    (vLocalDevices v) (vArchitecture v) (vStateful v).

(** ** Secrets published by the source, names of snapshots to restore *)

(** migrationSourceWs.Metadata: the keyed secrets handed to the REST layer;
    "criu" is present only when the criu secret is not empty. *)
Definition Metadata (s : migrationFields) : list (string * string) :=
  let secrets := [("control", controlSecret s); ("fs", fsSecret s)] in
  if negb (String.eqb (criuSecret s) "")
  then (("criu", criuSecret s) :: secrets)%list
  else secrets.

(** containerSnapRestore (lxd/container_put.go 80-83): a bare snapshot
    name is prefixed with the container's name. *)
Definition normalizeSnapshotName (name snap : string) : string :=
  if negb (shared.IsSnapshot snap)
  then name ++ shared.SnapshotDelimiter ++ snap
  else snap.

Definition isWriteClose (e : Event) : bool :=
  match e with EvWriteClose _ => true | _ => false end.
Definition isStorageStart (e : Event) : bool :=
  match e with EvStorageStart => true | _ => false end.
Definition isStorageStop (e : Event) : bool :=
  match e with EvStorageStop => true | _ => false end.
Definition isSendAfterCheckpoint (e : Event) : bool :=
  match e with EvSendAfterCheckpoint _ => true | _ => false end.
Definition isRestore (e : Event) : bool :=
  match e with EvMigrate MIGRATE_RESTORE _ _ _ => true | _ => false end.
Definition isShift (e : Event) : bool :=
  match e with EvShiftIfNecessary _ => true | _ => false end.
Definition isMigrationSink (e : Event) : bool :=
  match e with EvMigrationSink _ _ _ _ => true | _ => false end.
Definition isTempDir (e : Event) : bool :=
  match e with EvTempDir _ => true | _ => false end.
Definition isRemoveAll (e : Event) : bool :=
  match e with EvRemoveAll _ => true | _ => false end.
Definition isCriuStep (e : Event) : bool :=
  match e with
  | EvTempDir _ | EvRsyncRecv _ | EvMigrate _ _ _ _ | EvRemoveAll _ => true
  | _ => false
  end.
Definition isTemplateApply (e : Event) : bool :=
  match e with EvTemplateApply _ => true | _ => false end.
Definition isDial (e : Event) : bool :=
  match e with EvDial _ => true | _ => false end.

Definition secretOf (f : migrationFields) (sl : Slot) : string :=
  match sl with
  | SlotControl => controlSecret f
  | SlotCriu => criuSecret f
  | SlotFs => fsSecret f
  end.

(** ** Auxiliary definitions for the properties of the helpers *)

Definition isBlank (c : ascii) : bool :=
  Ascii.eqb c " " || Ascii.eqb c (ascii_of_nat 9) || Ascii.eqb c (ascii_of_nat 10).

(** Reading an escaped path back. *)
Fixpoint unescape (s : string) : string :=
  match s with
  | EmptyString => EmptyString
  | String c r =>
      if Ascii.eqb c "\" then
        match r with
        | String d r' =>
            if Ascii.eqb d "\" then String "\" (unescape r')
            else match r' with
                 | String e (String g r'') =>
                     String (if Ascii.eqb e "4" then " "
                             else if Ascii.eqb g "1" then ascii_of_nat 9
                                  else ascii_of_nat 10) (unescape r'')
                 | _ => EmptyString
                 end
        | EmptyString => EmptyString
        end
      else String c (unescape r)
  end.

(** The name a descriptor carries: the part after the first delimiter. *)
Definition nameOf (c : container) : string :=
  match shared.ExtractSnapshotName (cName c) with
  | Some n => n
  | None => cName c
  end.

(** The pointers of a descriptor lie below [n]. *)
Definition wfSnapshot (n : nat) (p : Snapshot) : Prop :=
  (Name p < n)%nat /\ Forall (fun d => (DevName d < n)%nat) (LocalDevices p).

(** The snapshots the source's driver lists, if there is a driver. *)
Definition driverSnapshots (env : SourceEnv) : list container :=
  match MigrationSource env with
  | inr driver => Snapshots_ driver
  | inl _ => []
  end.

(** The raw Close of a socket, if one is attached. *)
Definition closes (c : option Conn) : list Event :=
  match c with Some c => [EvClose c] | None => [] end.

(** What the receiver chosen by the sink answers. *)
Definition sinkRes (env : SinkEnv) (d : DriverId) : option error :=
  match d with
  | OwnDriver => MigrationSinkRes env
  | RsyncDriver => rsyncMigrationSinkRes env
  end.

(** ** The storage backends under src/

    lxd/storage_lvm.go 971-981 and lxd/storage_mock.go 133-143.  Both
    report RSYNC; the MigrationSource of LVM is
    [rsyncMigrationSource(container)], that of the mock fails. *)

Inductive storage : Type := storageLvm | storageMock.

Definition storage_MigrationType (s : storage) : MigrationFSType :=
  match s with
  | storageLvm => RSYNC
  | storageMock => RSYNC
  end.

(** [rsync] is what [rsyncMigrationSource(container)] returns. *)
Definition storage_MigrationSource (s : storage) (rsync : error + SourceDriver)
    : error + SourceDriver :=
  match s with
  | storageLvm => rsync
  | storageMock => inl (Errorf "not implemented")
  end.

(** The source of a container that lives on the backend [s]. *)
Definition onStorage (s : storage) (rsync : error + SourceDriver)
    (env : SourceEnv) : SourceEnv :=
  mkSourceEnv (StorageStart env) (IdmapSet env)
    (storage_MigrationSource s rsync) (storage_MigrationType s)
    (sendHeader env) (recvHeader env) (rsyncMigrationSource env)
    (TempDir env) (RuntimeLiblxcVersionAtLeast_2_0_4 env)
    (RandomCryptoString env) (operationCreate env)
    (writeActionScriptRes env) (actionScriptOpRun env) (dumpDoneFirst env)
    (Migrate env) (RsyncSend env) (recvControl env).

(** ** package shared: sizes in bytes and in bits

    ParseByteSizeString and ParseBitSizeString.  An int64 is a [Z]; the
    one place where the source can leave the range, the final product, is
    wrapped. *)

Module sizes.

(** unicode.IsNumber on a byte read as a rune: in Latin-1 the decimal
    digits and the characters of category No (superscripts 2, 3 and 1 and
    the three vulgar fractions). *)
Definition IsNumber (c : ascii) : bool :=
  let n := nat_of_ascii c in
  shared.isDigit c
  || (n =? 178)%nat || (n =? 179)%nat || (n =? 185)%nat
  || (n =? 188)%nat || (n =? 189)%nat || (n =? 190)%nat.

(** The value of a run of decimal digits; [None] at the first byte that is
    not a digit. *)
Fixpoint digits (acc : Z) (s : string) : option Z :=
  match s with
  | EmptyString => Some acc
  | String c rest =>
      if shared.isDigit c
      then digits (acc * 10 + Z.of_nat (nat_of_ascii c - 48)) rest
      else None
  end.

(** strconv.ParseInt(s, 10, 64): an optional sign, then at least one
    digit, and a value that fits int64; [None] is any of its errors. *)
Definition ParseInt (s : string) : option Z :=
  match s with
  | EmptyString => None
  | String c rest =>
      let neg := Ascii.eqb c "-" in
      let body := if Ascii.eqb c "+" || Ascii.eqb c "-" then rest else s in
      match body with
      | EmptyString => None
      | _ =>
          match digits 0 body with
          | None => None
          | Some un =>
              if neg then (if un <=? 2 ^ 63 then Some (- un) else None)
              else (if un <? 2 ^ 63 then Some un else None)
          end
      end
  end.

(** The product of two int64 wraps around. *)
Definition wrap64 (z : Z) : Z := (z + 2 ^ 63) mod 2 ^ 64 - 2 ^ 63.

Fixpoint take (n : nat) (s : string) : string :=
  match n, s with
  | O, _ => EmptyString
  | S n', String c s' => String c (take n' s')
  | S _, EmptyString => EmptyString
  end.

(** [strings.HasSuffix]. *)
Definition HasSuffix (s suffix : string) : bool :=
  (String.length suffix <=? String.length s)%nat
  && String.eqb (shared.drop (String.length s - String.length suffix) s) suffix.

(** [s[len(s)-k]] for a [k] between 1 and the length. *)
Definition fromEnd (k : nat) (s : string) : option ascii :=
  String.get (String.length s - k) s.

Definition numberAt (k : nat) (s : string) : bool :=
  match fromEnd k s with Some c => IsNumber c | None => false end.

(** The three errors built with fmt.Errorf; the value returned with them
    is -1. *)
Inductive SizeError : Type :=
| InvalidValue
| InvalidInteger
| UnsupportedSuffix.

Definition byteMultiplicator (suffix : string) : option Z :=
  if String.eqb suffix "kB" then Some 1024
  else if String.eqb suffix "MB" then Some (1024 * 1024)
  else if String.eqb suffix "GB" then Some (1024 * 1024 * 1024)
  else if String.eqb suffix "TB" then Some (1024 * 1024 * 1024 * 1024)
  else if String.eqb suffix "PB" then Some (1024 * 1024 * 1024 * 1024 * 1024)
  else if String.eqb suffix "EB"
       then Some (1024 * 1024 * 1024 * 1024 * 1024 * 1024)
  else None.

Definition ParseByteSizeString (input : string) : SizeError + Z :=
  if String.eqb input "" then inr 0
  else
    let n := String.length input in
    let suffixLen :=
      if numberAt 1 input then Some 0%nat
      else if (2 <=? n)%nat
              && (match fromEnd 1 input with
                  | Some c => Ascii.eqb c "B"
                  | None => false
                  end)
              && numberAt 2 input then Some 1%nat
      else if HasSuffix input " bytes" then Some 6%nat
      else if (n <? 3)%nat then None
      else Some 2%nat in
    match suffixLen with
    | None => inl InvalidValue
    | Some k =>
        let suffix := shared.drop (n - k) input in
        let value := take (n - k) input in
        match ParseInt value with
        | None => inl InvalidInteger
        | Some valueInt =>
            if valueInt <? 0 then inl InvalidValue
            else if negb (k =? 2)%nat then inr valueInt
            else match byteMultiplicator suffix with
                 | Some multiplicator => inr (wrap64 (valueInt * multiplicator))
                 | None => inl UnsupportedSuffix
                 end
        end
    end.

Definition bitMultiplicator (suffix : string) : option Z :=
  if String.eqb suffix "kbit" then Some 1000
  else if String.eqb suffix "Mbit" then Some (1000 * 1000)
  else if String.eqb suffix "Gbit" then Some (1000 * 1000 * 1000)
  else if String.eqb suffix "Tbit" then Some (1000 * 1000 * 1000 * 1000)
  else if String.eqb suffix "Pbit"
       then Some (1000 * 1000 * 1000 * 1000 * 1000)
  else if String.eqb suffix "Ebit"
       then Some (1000 * 1000 * 1000 * 1000 * 1000 * 1000)
  else None.

Definition ParseBitSizeString (input : string) : SizeError + Z :=
  if String.eqb input "" then inr 0
  else
    let n := String.length input in
    if (n <? 5)%nat then inl InvalidValue
    else
      let suffix := shared.drop (n - 4) input in
      let value := take (n - 4) input in
      match ParseInt value with
      | None => inl InvalidInteger
      | Some valueInt =>
          if valueInt <? 0 then inl InvalidValue
          else match bitMultiplicator suffix with
               | Some multiplicator => inr (wrap64 (valueInt * multiplicator))
               | None => inl UnsupportedSuffix
               end
      end.

End sizes.

(** ** Sample inputs *)

Module Sample.

Definition c1 : container :=
  mkContainer "c1" [("user.k", "v")]
    [("eth0", [("type", "nic")]); ("root", [("path", "/")])]
    ["default"] false 2 false.

Definition snap0 : container :=
  mkContainer "c1/snap0" [] [] ["default"] false 2 false.

Definition cold : migrationFields :=
  mkFields false "ctl" None false "" None "fs" None c1.

Definition running : migrationFields :=
  mkFields true "ctl" None false "crs" None "fs" None c1.

Definition ioError : error := Errorf "websocket: close sent".

Definition driver : SourceDriver := mkSourceDriver [snap0] None None.

(** A source where every external call succeeds; the sink echoes
    [echoFs] and [echoCriu]. *)
Definition source (src : error + SourceDriver) (myType echoFs : MigrationFSType)
    (echoCriu : option CRIUType) (send : option error) : SourceEnv :=
  mkSourceEnv None (inr (Some [mkIdmapEntry true false 100000 0 65536]))
    src myType send (inr (mkMigrationHeader echoFs echoCriu [] [] []))
    (Some driver) (inr "/tmp/lxd_checkpoint_1") true (inr "s3cr3t")
    (inr "/1.0/operations/1") None None true None None
    (inr (mkMigrationControl true (Some ""))).

(** lxd/storage_mock.go: MigrationType is RSYNC and MigrationSource
    fails with "not implemented". *)
Definition mockSource : SourceEnv :=
  source (inl (Errorf "not implemented")) RSYNC RSYNC None None.

(** A sink where every external call succeeds, given what the dial of the
    control socket answers, the opening header, the result of the storage
    receive, and what the source says first. *)
Definition sink (control : error + Conn) (opening : MigrationHeader)
    (myType : MigrationFSType) (receive : option error)
    (first : option (option MigrationControl)) : SinkEnv :=
  mkSinkEnv control (inr 2%nat) (inr 3%nat) (inr opening) myType None
    receive receive None (inr "/tmp/lxd_restore_1") None None first None.

Definition opening (names : list string) : MigrationHeader :=
  mkMigrationHeader ZFS None [mkIDMapType true false 100000 0 65536] names [].

End Sample.

(** ** Lemmas on the helpers *)

Lemma prefix_split (sep s : string) :
  prefix sep s = true -> s = sep ++ shared.drop (String.length sep) s.
Proof.
  revert s. induction sep as [|c sep IH]; intros s H.
  - reflexivity.
  - destruct s as [|d s]; simpl in H; [discriminate|].
    destruct (ascii_dec c d) as [->|]; [|discriminate].
    simpl. f_equal. apply IH, H.
Qed.

Lemma prefix_app (sep b : string) : prefix sep (sep ++ b) = true.
Proof.
  induction sep as [|c sep IH]; simpl.
  - destruct b; reflexivity.
  - destruct (ascii_dec c c); [exact IH | congruence].
Qed.

Lemma cut_cons (sep : string) (c : ascii) (s : string) :
  shared.cut sep (String c s) =
  if prefix sep (String c s)
  then Some ("", shared.drop (String.length sep) (String c s))
  else match shared.cut sep s with
       | Some (a, b) => Some (String c a, b)
       | None => None
       end.
Proof. reflexivity. Qed.

Lemma cut_sound (sep s a b : string) :
  shared.cut sep s = Some (a, b) -> s = a ++ sep ++ b.
Proof.
  revert a b. induction s as [|c s IH]; intros a b H.
  - cbn [shared.cut] in H. destruct (prefix sep "") eqn:E; [|discriminate].
    inversion H; subst. apply prefix_split in E. exact E.
  - rewrite cut_cons in H. destruct (prefix sep (String c s)) eqn:E.
    + inversion H; subst. apply prefix_split in E. exact E.
    + destruct (shared.cut sep s) as [[a' b']|] eqn:E2; [|discriminate].
      inversion H; subst. simpl. f_equal. apply IH. reflexivity.
Qed.

Lemma cut_prefix (sep s : string) :
  prefix sep s = true ->
  shared.cut sep s = Some ("", shared.drop (String.length sep) s).
Proof. intros H. destruct s; cbn [shared.cut]; rewrite H; reflexivity. Qed.

Lemma cut_complete (sep a b : string) :
  exists a' b', shared.cut sep (a ++ sep ++ b) = Some (a', b').
Proof.
  induction a as [|c a IH].
  - simpl. rewrite cut_prefix by apply prefix_app.
    do 2 eexists; reflexivity.
  - change (String c a ++ sep ++ b) with (String c (a ++ sep ++ b)).
    rewrite cut_cons.
    destruct (prefix sep (String c (a ++ sep ++ b)));
      [do 2 eexists; reflexivity|].
    destruct IH as (a' & b' & ->). do 2 eexists; reflexivity.
Qed.

Definition has_delimiter (name : string) : Prop :=
  exists a b, name = a ++ shared.SnapshotDelimiter ++ b.

Lemma cut_none_iff (name : string) :
  shared.cut shared.SnapshotDelimiter name = None <-> ~ has_delimiter name.
Proof.
  split.
  - intros H (a & b & ->).
    destruct (cut_complete shared.SnapshotDelimiter a b) as (a' & b' & E).
    congruence.
  - intros H. destruct (shared.cut _ name) as [[a b]|] eqn:E; [|reflexivity].
    exfalso. apply H. exists a, b. apply cut_sound, E.
Qed.

Lemma ExtractSnapshotName_none_iff (name : string) :
  shared.ExtractSnapshotName name = None <-> ~ has_delimiter name.
Proof.
  rewrite <- cut_none_iff. unfold shared.ExtractSnapshotName, shared.SplitN2.
  destruct (shared.cut _ name) as [[a b]|]; simpl; split; congruence.
Qed.

Lemma int32_mod (x : Z) : int32 x = (x + 2 ^ 31) mod 2 ^ 32 - 2 ^ 31.
Proof.
  unfold int32. rewrite Z.land_ones by lia. cbv zeta.
  change (2 ^ 32) with 4294967296. change (2 ^ 31) with 2147483648.
  pose proof (Z.mod_pos_bound x 4294967296 ltac:(lia)) as Hb.
  pose proof (Z.div_mod x 4294967296 ltac:(lia)) as Hd.
  destruct (Z.ltb_spec (x mod 4294967296) 2147483648).
  - assert ((x + 2147483648) mod 4294967296 = x mod 4294967296 + 2147483648)
      as ->; [|lia].
    symmetry. apply Z.mod_unique with (q := x / 4294967296); lia.
  - assert ((x + 2147483648) mod 4294967296 = x mod 4294967296 - 2147483648)
      as ->; [|lia].
    symmetry. apply Z.mod_unique with (q := x / 4294967296 + 1); lia.
Qed.

Lemma int32_range (x : Z) : representable32 (int32 x).
Proof.
  unfold representable32. rewrite int32_mod.
  pose proof (Z.mod_pos_bound (x + 2 ^ 31) (2 ^ 32) ltac:(lia)). lia.
Qed.

Lemma int32_id_iff (x : Z) : int64 (int32 x) = x <-> representable32 x.
Proof.
  unfold int64. split.
  - intros <-. apply int32_range.
  - intros H. unfold representable32 in H. rewrite int32_mod.
    rewrite Z.mod_small by lia. lia.
Qed.

(** ** Running a procedure by cases

    [stuck t] finds the term whose value decides the next step of [t];
    [run H] follows every path of the computation in [H]. *)
Ltac stuck t :=
  lazymatch t with
  | match ?x with _ => _ end =>
      match x with
      | _ => stuck x
      | _ => x
      end
  | ?f _ => stuck f
  end.

Ltac reduce_in H :=
  cbv -[rangeSnapshots readSnapshot idmapToProto map int32 legacySnapshots
        srcIdmapOf String.eqb Nat.eqb length] in H.

Ltac run H :=
  repeat (reduce_in H;
          lazymatch type of H with
          | (?t = _) =>
              let x := stuck t in
              tryif is_var x then destruct x else destruct x eqn:?
          end).

Ltac done_run H := injection H as <- <-; cbv [fst snd log worker fields].

(** ** The model at work *)

Example NewMigrationSource_stopped :
  NewMigrationSource Sample.c1 false true (inr "ctl") (inr "fs") (inr "crs")
  = inr Sample.cold.
Proof. reflexivity. Qed.

(** Attaching control and fs to a fresh source of a stopped container
    leaves one value in allConnected and the fields of [attached]. *)
Example attached_after_Connect :
  let w := snd (Connect "fs" (inr 2%nat)
                  (snd (Connect "ctl" (inr 1%nat) (start Sample.cold)))) in
  fields w = fields (attached Sample.cold 1%nat 2%nat 3%nat) /\
  allConnected w = allConnected (attached Sample.cold 1%nat 2%nat 3%nat).
Proof. split; reflexivity. Qed.

(** A live migration in which every step succeeds. *)
Example live_migration_succeeds :
  let r := Source.Do
             (Sample.source (inr Sample.driver) ZFS ZFS (Some CRIU_RSYNC) None)
             (attached Sample.running 1%nat 2%nat 3%nat) in
  fst r = Ret None /\
  filter (fun e => negb (isProtoSend e)) (log (snd r)) =
    [EvProtoRecv (Some 1%nat); EvSendWhileRunning OwnDriver;
     EvTempDir "lxd_checkpoint_"; EvOperationCreate;
     EvWriteActionScript "/tmp/lxd_checkpoint_1"; EvOperationRun;
     EvRsyncSend "/tmp/lxd_checkpoint_1"; EvSendAfterCheckpoint OwnDriver;
     EvCleanup OwnDriver; EvProtoRecv (Some 1%nat)] /\
  worker (snd r) =
    [EvMigrate MIGRATE_DUMP "/tmp/lxd_checkpoint_1" true true;
     EvRemoveAll "/tmp/lxd_checkpoint_1"].
Proof. cbv. auto. Qed.

(** A migration of a stopped container between ZFS and BTRFS hosts. *)
Example stopped_migration_falls_back :
  let r := Sink.Do (Sample.sink (inr 1%nat) (Sample.opening []) BTRFS None None)
             (start Sample.cold) in
  fst r = Ret None /\
  log (snd r) =
    [EvDial "ctl"; EvDial "fs"; EvProtoRecv (Some 1%nat);
     EvProtoSend (Some 1%nat) (mkMigrationHeader RSYNC None [] [] []);
     EvProtoSendControl (Some 1%nat) None; EvWriteClose 1%nat; EvClose 2%nat].
Proof. cbv. auto. Qed.

(** ** Snapshot names (claim C9) *)

Lemma rangeSnapshots_none_iff (fullSnaps : list container) (h : store) :
  fst (rangeSnapshots fullSnaps h) = None <->
  Exists (fun snap => ~ has_delimiter (cName snap)) fullSnaps.
Proof.
  revert h. induction fullSnaps as [|snap rest IH]; intros h; cbn [rangeSnapshots].
  - split; [discriminate | intros H; inversion H].
  - destruct (snapshotToProtobuf snap h) as [p h1].
    destruct (shared.ExtractSnapshotName (cName snap)) as [n|] eqn:E.
    + specialize (IH h1).
      destruct (rangeSnapshots rest h1) as [[[a b]|] h2]; cbn [fst] in *.
      * split; [discriminate|]. intros H. inversion H as [? ? H1|? ? H1]; subst.
        -- apply ExtractSnapshotName_none_iff in H1. congruence.
        -- apply IH in H1. discriminate.
      * split; [|reflexivity]. intros _. apply Exists_cons_tl, IH. reflexivity.
    + cbn [fst]. split; [|reflexivity]. intros _. apply Exists_cons_hd.
      apply ExtractSnapshotName_none_iff, E.
Qed.

(** C9.  ExtractSnapshotName panics exactly on the names without the
    delimiter "/"; the loop that builds the header's snapshot lists panics
    exactly when the driver returns a snapshot with such a name; and a
    source whose driver returns one panics in Do before anything is sent. *)
Theorem ExtractSnapshotName_partial :
  (forall name,
      shared.ExtractSnapshotName name = None <-> ~ has_delimiter name) /\
  (forall fullSnaps h,
      fst (rangeSnapshots fullSnaps h) = None <->
      Exists (fun snap => ~ has_delimiter (cName snap)) fullSnaps) /\
  (forall env f c1 c2 c3 driver idmapset,
      MigrationSource env = inr driver ->
      IdmapSet env = inr idmapset ->
      (live f = false -> StorageStart env = None) ->
      Exists (fun snap => ~ has_delimiter (cName snap)) (Snapshots_ driver) ->
      fst (Source.Do env (attached f c1 c2 c3)) = Panic /\
      sentHeaders (log (snd (Source.Do env (attached f c1 c2 c3)))) = []).
Proof.
  split; [exact ExtractSnapshotName_none_iff|].
  split; [exact rangeSnapshots_none_iff|].
  intros env f c1 c2 c3 driver idmapset Hd Hi Hs Hex.
  apply (rangeSnapshots_none_iff _ []) in Hex.
  destruct (Source.Do env (attached f c1 c2 c3)) as [r w] eqn:H.
  destruct env, f, driver; cbn in Hd, Hi, Hs, Hex; subst.
  run H; try (specialize (Hs eq_refl); discriminate);
    try (cbn in Hex; discriminate);
    done_run H; split; reflexivity.
Qed.

Lemma ExtractSnapshotName_partial_witness :
  fst (Source.Do (Sample.source (inr (mkSourceDriver [Sample.c1] None None))
                    ZFS ZFS None None)
         (attached Sample.cold 1%nat 2%nat 3%nat)) = Panic.
Proof.
  refine (proj1 (proj2 (proj2 ExtractSnapshotName_partial)
                   (Sample.source (inr (mkSourceDriver [Sample.c1] None None))
                      ZFS ZFS None None)
                   Sample.cold 1%nat 2%nat 3%nat
                   (mkSourceDriver [Sample.c1] None None)
                   (Some [mkIdmapEntry true false 100000 0 65536])
                   eq_refl eq_refl (fun _ => eq_refl) _)).
  apply Exists_cons_hd.
  apply (proj1 ExtractSnapshotName_partial). reflexivity.
Defined.

(** ** ID maps on the wire (claim C10) *)

Lemma srcIdmapOf_map (header : MigrationHeader) :
  srcIdmapOf header = map idmapOfProto (Idmap header).
Proof.
  unfold srcIdmapOf.
  assert (forall l acc,
             fold_left (fun acc idmapSet => Extend acc (idmapOfProto idmapSet))
               l acc = (acc ++ map idmapOfProto l)%list) as G.
  { induction l as [|x l IH]; intros acc; simpl.
    - now rewrite app_nil_r.
    - rewrite IH. unfold Extend. now rewrite <- app_assoc. }
  apply (G _ []).
Qed.

(** ** The websocket multiplexer (claims C3 and C4) *)

Lemma slotOf_none (f : migrationFields) (secret : string) :
  secret <> controlSecret f -> secret <> criuSecret f -> secret <> fsSecret f ->
  slotOf f secret = None.
Proof.
  intros H1 H2 H3. unfold slotOf.
  apply String.eqb_neq in H1, H2, H3. now rewrite H1, H2, H3.
Qed.

(** C4, as amended.  A secret that equals none of the control, fs and criu
    secrets is refused without any websocket upgrade and without attaching
    a channel (the state is unchanged): with the Permission error when it
    is not empty, with the error "missing secret" when it is empty. *)
Theorem Connect_unknown_secret (w : World) (secret : string)
    (upgrade : error + Conn) :
  secret <> controlSecret (fields w) ->
  secret <> criuSecret (fields w) ->
  secret <> fsSecret (fields w) ->
  Connect secret upgrade w =
  (Ret (Some (if String.eqb secret "" then Errorf "missing secret"
              else ErrPermission)), w).
Proof.
  intros H1 H2 H3. unfold Connect.
  destruct (String.eqb secret ""); [reflexivity|].
  unfold bind, getFields. now rewrite slotOf_none.
Qed.

Lemma Connect_unknown_secret_witness :
  Connect "guess" (inr 9%nat) (start Sample.running) =
  (Ret (Some ErrPermission), start Sample.running).
Proof.
  apply (Connect_unknown_secret (start Sample.running) "guess" (inr 9%nat));
    discriminate.
Defined.

(** The empty secret equals none of the three secrets of a live operation,
    and Connect answers "missing secret", not Permission. *)
Lemma Connect_empty_secret_not_Permission :
  "" <> controlSecret Sample.running /\
  "" <> fsSecret Sample.running /\
  "" <> criuSecret Sample.running /\
  fst (Connect "" (inr 9%nat) (start Sample.running)) <>
  Ret (Some ErrPermission).
Proof. repeat split; discriminate. Qed.

(** C3, as amended.  A call to Connect with a secret whose channel is
    already attached is handled like the first one: it is never refused
    with Permission.  When the upgrade succeeds the new connection replaces
    the first in that secret's slot and the other slots are left as they
    were; Connect then returns nil, except when every expected channel is
    attached and allConnected already holds a value: then it waits on
    allConnected, with the slot already rebound.  If every expected channel
    is attached and allConnected is empty, the call puts a value in it.
    When the upgrade fails Connect returns the upgrader's error and
    nothing but the log changes: the first connection stays bound. *)
Theorem Connect_again_rebinds (w : World) (secret : string) (sl : Slot)
    (first : Conn) :
  secret <> "" ->
  slotOf (fields w) secret = Some sl ->
  slotConn sl (fields w) = Some first ->
  (forall c,
      let r := Connect secret (inr c) w in
      fst r = (if allAttached (fields w) && negb (Nat.eqb (allConnected w) 0)
               then Block else Ret None) /\
      (fst r = Ret None \/ fst r = Block) /\
      fields (snd r) = rebind sl c (fields w) /\
      slotConn sl (fields (snd r)) = Some c /\
      (forall sl', sl' <> sl ->
                   slotConn sl' (fields (snd r)) = slotConn sl' (fields w)) /\
      allConnected (snd r) =
        (if allAttached (fields w) && Nat.eqb (allConnected w) 0
         then 1%nat else allConnected w) /\
      log (snd r) = (log w ++ [EvUpgrade (inr c)])%list) /\
  (forall err,
      let r := Connect secret (inl err) w in
      fst r = Ret (Some err) /\
      fields (snd r) = fields w /\
      slotConn sl (fields (snd r)) = Some first /\
      allConnected (snd r) = allConnected w /\
      log (snd r) = (log w ++ [EvUpgrade (inl err)])%list).
Proof.
  intros Hne Hsl Hfirst. apply String.eqb_neq in Hne.
  split.
  - intros c r. subst r. unfold Connect. rewrite Hne.
    cbv [bind getFields]. rewrite Hsl.
    destruct w as [f n m l wk]. destruct f as [lv cs cc lk crs crc fss fsc ct].
    destruct sl, lv, cc, crc, fsc, n; cbn in Hfirst |- *;
      try discriminate;
      repeat split; auto;
      intros sl' Hsl'; destruct sl'; try reflexivity; congruence.
  - intros err r. subst r. unfold Connect. rewrite Hne.
    cbv [bind getFields]. rewrite Hsl. cbn. auto.
Qed.

Lemma Connect_again_rebinds_witness :
  let w1 := snd (Connect "ctl" (inr 1%nat) (start Sample.cold)) in
  let w2 := snd (Connect "fs" (inr 2%nat) w1) in
  (* the fs channel is not attached yet: the second call returns nil *)
  (fst (Connect "ctl" (inr 3%nat) w1) = Ret None /\
   controlConn (fields (snd (Connect "ctl" (inr 3%nat) w1))) = Some 3%nat) /\
  (* every channel is attached and allConnected is full: it waits *)
  (fst (Connect "ctl" (inr 3%nat) w2) = Block /\
   controlConn (fields (snd (Connect "ctl" (inr 3%nat) w2))) = Some 3%nat).
Proof.
  cbv zeta. split.
  - pose proof (proj1 (Connect_again_rebinds
                         (snd (Connect "ctl" (inr 1%nat) (start Sample.cold)))
                         "ctl" SlotControl 1%nat
                         ltac:(discriminate) eq_refl eq_refl) 3%nat) as H.
    cbv zeta in H. destruct H as (H1 & _ & _ & H4 & _). split.
    + exact H1.
    + exact H4.
  - pose proof (proj1 (Connect_again_rebinds
                         (snd (Connect "fs" (inr 2%nat)
                                 (snd (Connect "ctl" (inr 1%nat)
                                         (start Sample.cold)))))
                         "ctl" SlotControl 1%nat
                         ltac:(discriminate) eq_refl eq_refl) 3%nat) as H.
    cbv zeta in H. destruct H as (H1 & _ & _ & H4 & _). split.
    + exact H1.
    + exact H4.
Defined.

(** The control secret is used twice: the second call is accepted and the
    control channel is now the second connection. *)
Lemma Connect_twice_accepted :
  let w1 := snd (Connect "ctl" (inr 1%nat) (start Sample.cold)) in
  let r := Connect "ctl" (inr 2%nat) w1 in
  controlConn (fields w1) = Some 1%nat /\
  fst r = Ret None /\
  fst r <> Ret (Some ErrPermission) /\
  controlConn (fields (snd r)) = Some 2%nat.
Proof. cbv. repeat split; discriminate. Qed.

(** ** The legacy snapshot descriptors of the sink (claim C8) *)

Lemma load_app (p : ptr) (h t : store) :
  (p < length h)%nat -> load p (h ++ t)%list = load p h.
Proof. intros H. unfold load. now apply app_nth1. Qed.

Lemma length_assign (p : ptr) (v : string) (h : store) :
  length (assign p v h) = length h.
Proof.
  revert p. induction h as [|x h IH]; intros [|p]; simpl; auto.
Qed.

Lemma load_assign_same (p : ptr) (v : string) (h : store) :
  (p < length h)%nat -> load p (assign p v h) = v.
Proof.
  revert p. induction h as [|x h IH]; intros [|p] H; simpl in *; try lia.
  - reflexivity.
  - apply IH. lia.
Qed.

Lemma load_assign_other (p q : ptr) (v : string) (h : store) :
  p <> q -> load q (assign p v h) = load q h.
Proof.
  revert p q. induction h as [|x h IH]; intros [|p] [|q] H; simpl;
    try reflexivity; try congruence.
  apply IH. congruence.
Qed.

Lemma rangeDevices_store (name : ptr) l (h : store) :
  length (snd (rangeDevices name l h)) = length h /\
  forall q, q <> name ->
            load q (snd (rangeDevices name l h)) = load q h.
Proof.
  revert h. induction l as [|[k d] l IH]; intros h; cbn [rangeDevices].
  - auto.
  - specialize (IH (assign name k h)).
    destruct (rangeDevices name l (assign name k h)) as [ds h2].
    cbn [snd] in *. destruct IH as [IH1 IH2]. split.
    + now rewrite IH1, length_assign.
    + intros q Hq. rewrite IH2 by assumption.
      apply load_assign_other. congruence.
Qed.

Lemma snapshotToProtobuf_store (c : container) (h : store) :
  length (snd (snapshotToProtobuf c h)) = S (S (length h)) /\
  forall q, (q < length h)%nat ->
            load q (snd (snapshotToProtobuf c h)) = load q h.
Proof.
  unfold snapshotToProtobuf, alloc.
  pose proof (rangeDevices_store (length h) (cLocalDevices c) (h ++ [""])%list)
    as [L1 L2].
  destruct (rangeDevices (length h) (cLocalDevices c) (h ++ [""])%list) as [ds h2].
  cbn [snd] in *. rewrite length_app in L1. cbn [length] in L1. split.
  - rewrite length_app. cbn [length]. lia.
  - intros q Hq. rewrite load_app by lia.
    rewrite L2 by lia. now apply load_app.
Qed.

Lemma last_cons_default (n : string) (rest : list string) (d : string) :
  last (n :: rest) d = last rest n.
Proof.
  revert n d. induction rest as [|m rest IH]; intros n d; [reflexivity|].
  change (last (n :: m :: rest) d) with (last (m :: rest) d).
  now rewrite (IH m d), (IH m n).
Qed.

Lemma rangeSnapshotNames_store (name : ptr) (names : list string)
    (c : container) (h : store) :
  (name < length h)%nat ->
  let r := rangeSnapshotNames name names c h in
  (length h <= length (snd r))%nat /\
  Forall (fun s => Name s = name) (fst r) /\
  length (fst r) = length names /\
  load name (snd r) = last names (load name h).
Proof.
  revert h. induction names as [|n rest IH]; intros h Hn; cbn [rangeSnapshotNames].
  - cbn. auto.
  - pose proof (snapshotToProtobuf_store c (assign name n h)) as [S1 S2].
    destruct (snapshotToProtobuf c (assign name n h)) as [base h2].
    cbn [snd] in S1, S2. rewrite length_assign in S1, S2.
    specialize (IH h2 ltac:(lia)).
    destruct (rangeSnapshotNames name rest c h2) as [snaps h3].
    cbn [fst snd] in *. destruct IH as (I1 & I2 & I3 & I4).
    repeat split.
    + lia.
    + constructor; [reflexivity | assumption].
    + cbn. now rewrite I3.
    + rewrite I4, S2 by lia. rewrite load_assign_same by lia.
      symmetry. apply last_cons_default.
Qed.

Lemma last_nonempty_default (l : list string) (d d' : string) :
  l <> [] -> last l d = last l d'.
Proof.
  destruct l as [|n rest]; [congruence|]. intros _.
  now rewrite !last_cons_default.
Qed.

(** When the lengths agree the received descriptors go to the storage sink
    as they are. *)
Lemma sinkSnapshots_same_length (header : MigrationHeader) (c : container)
    (w : World) :
  length (SnapshotNames header) = length (Snapshots header) ->
  sinkSnapshots header c w = (Ret (Snapshots header), w).
Proof.
  intros H. unfold sinkSnapshots. rewrite H, Nat.eqb_refl. reflexivity.
Qed.

(** C8, what the code does.  When the two lists of the header differ in
    length the sink builds one descriptor per entry of snapshotNames, but
    every one of them reads the name of the LAST entry: the descriptors
    share the address of the loop variable. *)
Theorem legacy_snapshots_share_last_name (header : MigrationHeader)
    (c : container) (w : World) :
  length (SnapshotNames header) <> length (Snapshots header) ->
  exists snapshots w',
    sinkSnapshots header c w = (Ret snapshots, w') /\
    map vName snapshots =
    repeat (last (SnapshotNames header) "") (length (SnapshotNames header)).
Proof.
  intros H. apply Nat.eqb_neq in H. unfold sinkSnapshots. rewrite H.
  cbn [negb]. cbv [bind liftStore getMem ret legacySnapshots alloc].
  pose proof (rangeSnapshotNames_store (length (mem w)) (SnapshotNames header)
                c (mem w ++ [""])%list) as R.
  rewrite length_app in R. cbn [length] in R. specialize (R ltac:(lia)).
  cbv zeta in R.
  destruct (rangeSnapshotNames (length (mem w)) (SnapshotNames header) c
              (mem w ++ [""])%list) as [snaps h2].
  cbn [fst snd] in R. destruct R as (_ & RN & RL & RV).
  do 2 eexists. split; [reflexivity|].
  cbn [mem set_mem]. rewrite map_map. rewrite <- RL.
  assert (load (length (mem w)) h2 = last (SnapshotNames header) "") as E.
  { rewrite RV. destruct (SnapshotNames header) as [|n rest].
    - unfold load. rewrite app_nth2, Nat.sub_diag by lia. reflexivity.
    - now apply last_nonempty_default. }
  clear RL RV. induction RN as [|s snaps Hs RN IH]; [reflexivity|].
  cbn [map length repeat]. f_equal; [|exact IH].
  cbn [readSnapshot vName]. now rewrite Hs.
Qed.

Lemma legacy_snapshots_share_last_name_witness :
  exists snapshots w',
    sinkSnapshots (Sample.opening ["snap0"; "snap1"]) Sample.c1
      (start Sample.cold) = (Ret snapshots, w') /\
    map vName snapshots = ["snap1"; "snap1"].
Proof.
  apply (legacy_snapshots_share_last_name (Sample.opening ["snap0"; "snap1"])
           Sample.c1 (start Sample.cold)).
  discriminate.
Defined.

(** ** Runs of the source (claims C2, C6 and C7) *)

Ltac close_run H :=
  try congruence;
  try (done_run H; cbv [count filter length sentHeaders sentControls flat_map
                          app isCleanup isSendWhileRunning isCheckpoint
                          isProtoSend isSendControl usesOwnDriver];
       repeat split; try reflexivity; try lia; try congruence; eauto).

Lemma source_cleanup env f (c1 c2 c3 : Conn) r w :
  Source.Do env (attached f c1 c2 c3) = (r, w) ->
  count isCleanup (log w) = count isSendWhileRunning (log w) /\
  (count isSendWhileRunning (log w) <= 1)%nat /\
  (sendHeader env <> None -> count isCleanup (log w) = 0%nat) /\
  ((exists e, recvHeader env = inl e) -> count isCleanup (log w) = 0%nat).
Proof.
  intros H.
  destruct env, f. cbn [sendHeader recvHeader].
  run H; done_run H;
    cbv [count filter length isCleanup isSendWhileRunning];
    (split; [reflexivity | split; [lia | split; intros Hx; try reflexivity]]);
    try congruence; try (destruct Hx; discriminate).
Qed.

(** C2, as amended.  Cleanup is called exactly once in every run of the
    source's Do that starts the filesystem transfer (that calls
    SendWhileRunning), whatever the outcome of the run, and is not called
    in any other run; in particular not when the header cannot be sent or
    the echoed header cannot be read, although the driver was obtained. *)
Theorem Cleanup_once_per_transfer (env : SourceEnv) (f : migrationFields)
    (c1 c2 c3 : Conn) :
  let w := snd (Source.Do env (attached f c1 c2 c3)) in
  count isCleanup (log w) = count isSendWhileRunning (log w) /\
  (count isSendWhileRunning (log w) <= 1)%nat /\
  (sendHeader env <> None -> count isCleanup (log w) = 0%nat) /\
  ((exists e, recvHeader env = inl e) -> count isCleanup (log w) = 0%nat).
Proof.
  cbv zeta. destruct (Source.Do env (attached f c1 c2 c3)) as [r w] eqn:H.
  exact (source_cleanup env f c1 c2 c3 r w H).
Qed.

Lemma Cleanup_once_per_transfer_witness :
  count isCleanup
    (log (snd (Source.Do
                 (Sample.source (inr Sample.driver) ZFS ZFS None (Some Sample.ioError))
                 (attached Sample.cold 1%nat 2%nat 3%nat)))) = 0%nat.
Proof.
  refine (proj1 (proj2 (proj2
            (Cleanup_once_per_transfer
               (Sample.source (inr Sample.driver) ZFS ZFS None (Some Sample.ioError))
               Sample.cold 1%nat 2%nat 3%nat))) _).
  discriminate.
Defined.

(** The driver was obtained, the header could not be sent: Cleanup is
    never called. *)
Lemma Cleanup_skipped_when_send_fails :
  let env := Sample.source (inr Sample.driver) ZFS ZFS None (Some Sample.ioError) in
  let w := snd (Source.Do env (attached Sample.cold 1%nat 2%nat 3%nat)) in
  MigrationSource env = inr Sample.driver /\
  count isCleanup (log w) <> 1%nat /\
  count isCleanup (log w) = 0%nat.
Proof. cbv. repeat split; discriminate. Qed.

(** In a run that goes through the whole transfer Cleanup is called once. *)
Example Cleanup_called_in_full_run :
  let r := Source.Do (Sample.source (inr Sample.driver) ZFS ZFS None None)
             (attached Sample.cold 1%nat 2%nat 3%nat) in
  fst r = Ret None /\ count isCleanup (log (snd r)) = 1%nat.
Proof. cbv. auto. Qed.

(** [sendControl] with an error, on a connected side whose lock is free:
    the failure is written, then [disconnect] asks for the lock that
    [sendControl] still holds, and the goroutine blocks. *)
Lemma sendControl_error_blocks (w : World) (err : error) :
  controlLock (fields w) = false ->
  fst (sendControl (Some err) w) = Block /\
  log (snd (sendControl (Some err) w)) =
  (log w ++ [EvProtoSendControl (controlConn (fields w)) (Some err)])%list /\
  controlLock (fields (snd (sendControl (Some err) w))) = true.
Proof.
  intros H. destruct w as [f n m l wk]. destruct f. cbn in H. subst.
  cbv. auto.
Qed.

(** C6, what the code does.  When Storage().MigrationSource fails, the
    source sends the opening header with its own fs type and empty snapshot
    lists, then the control failure carrying the driver error; but
    sendControl then blocks on its own lock, so Do does not return. *)
Theorem driver_error_reported_then_blocked (env : SourceEnv)
    (f : migrationFields) (c1 c2 c3 : Conn) (fsErr : error)
    (idmapset : option (list IdmapEntry)) :
  controlLock f = false ->
  (live f = false -> StorageStart env = None) ->
  IdmapSet env = inr idmapset ->
  MigrationSource env = inl fsErr ->
  sendHeader env = None ->
  let r := Source.Do env (attached f c1 c2 c3) in
  sentHeaders (log (snd r)) =
    [mkMigrationHeader (MigrationType env)
       (if live f then Some CRIU_RSYNC else None)
       (match idmapset with Some l => map idmapToProto l | None => [] end)
       [] []] /\
  sentControls (log (snd r)) = [Some fsErr] /\
  fst r = Block.
Proof.
  intros Hl Hs Hi Hm Hh. cbv zeta.
  destruct (Source.Do env (attached f c1 c2 c3)) as [r w] eqn:H.
  destruct env, f. cbn in Hl, Hs, Hi, Hm, Hh. subst.
  run H; try (specialize (Hs eq_refl); discriminate); close_run H.
Qed.

Lemma driver_error_reported_then_blocked_witness :
  fst (Source.Do Sample.mockSource (attached Sample.cold 1%nat 2%nat 3%nat))
  = Block.
Proof.
  refine (proj2 (proj2
            (driver_error_reported_then_blocked Sample.mockSource Sample.cold
               1%nat 2%nat 3%nat (Errorf "not implemented")
               (Some [mkIdmapEntry true false 100000 0 65536])
               eq_refl (fun _ => eq_refl) eq_refl eq_refl eq_refl))).
Defined.

(** C7, what the code does.  In a live migration whose echoed header has
    no checkpoint type, or one other than CRIU_RSYNC, the source takes no
    checkpoint, calls Cleanup once and writes one control failure; but
    sendControl then blocks on its own lock, so Do does not return. *)
Theorem live_without_criu_aborts_then_blocked (env : SourceEnv)
    (f : migrationFields) (c1 c2 c3 : Conn) (own : SourceDriver)
    (idmapset : option (list IdmapEntry)) (echo : MigrationHeader) :
  live f = true ->
  controlLock f = false ->
  IdmapSet env = inr idmapset ->
  MigrationSource env = inr own ->
  fst (rangeSnapshots (Snapshots_ own) []) <> None ->
  sendHeader env = None ->
  recvHeader env = inr echo ->
  (Fs echo <> MigrationType env -> rsyncMigrationSource env <> None) ->
  Criu echo <> Some CRIU_RSYNC ->
  let r := Source.Do env (attached f c1 c2 c3) in
  count isCheckpoint (log (snd r) ++ worker (snd r)) = 0%nat /\
  count isCleanup (log (snd r)) = 1%nat /\
  (exists err, sentControls (log (snd r)) = [Some err]) /\
  fst r = Block.
Proof.
  intros Hl Hk Hi Hm Hsn Hh Hr Hrs Hc. cbv zeta.
  destruct (Source.Do env (attached f c1 c2 c3)) as [r w] eqn:H.
  destruct env, f, echo, own. cbn in Hl, Hk, Hi, Hm, Hsn, Hh, Hr, Hrs, Hc.
  subst.
  run H;
    try (cbn in Hsn; congruence);
    try (exfalso; apply Hrs; [discriminate | reflexivity]);
    close_run H.
Qed.

Lemma live_without_criu_aborts_then_blocked_witness :
  fst (Source.Do (Sample.source (inr Sample.driver) ZFS ZFS None None)
         (attached Sample.running 1%nat 2%nat 3%nat)) = Block.
Proof.
  refine (proj2 (proj2 (proj2
            (live_without_criu_aborts_then_blocked
               (Sample.source (inr Sample.driver) ZFS ZFS None None)
               Sample.running 1%nat 2%nat 3%nat Sample.driver
               (Some [mkIdmapEntry true false 100000 0 65536])
               (mkMigrationHeader ZFS None [] [] [])
               eq_refl eq_refl eq_refl eq_refl _ eq_refl eq_refl _ _)))).
  - discriminate.
  - intros H. exfalso. apply H. reflexivity.
  - discriminate.
Defined.

(** ** Runs of the sink (claim C1) *)

Lemma legacySnapshots_not_none (names : list string) (c : container)
    (h s : store) :
  legacySnapshots names c h <> (None, s).
Proof.
  unfold legacySnapshots. destruct (alloc "" h) as [name h1].
  destruct (rangeSnapshotNames name names c h1). discriminate.
Qed.

Ltac use_hyps :=
  repeat match goal with
         | H : ?a = ?a -> _ |- _ => specialize (H eq_refl)
         | H : exists _, _ |- _ => destruct H
         | H : _ /\ _ |- _ => destruct H
         | H : _ \/ _ |- _ => destruct H
         | H : ?a <> ?a |- _ => exfalso; apply H; reflexivity
         | H : Some ?a = Some ?b |- _ => first [injection H as H | clear H]
         | H : inr ?a = inr ?b |- _ => first [injection H as H | clear H]
         end;
  subst;
  cbn [Success Message Fs chooseSink MigrationFSType_eqb negb fst snd] in *.

Ltac close_sink H :=
  try (exfalso; eapply legacySnapshots_not_none; eassumption);
  done_run H;
  cbv [count filter length sentControls sentHeaders sinkCalls flat_map app
         isDelete isSendControl sinkRes chooseSink fst snd negb
         MigrationFSType_eqb Success Message];
  repeat (split; intros);
  use_hyps;
  try congruence; try reflexivity;
  try (eexists; split; [reflexivity|]; auto; fail);
  try (left; split; reflexivity);
  try (right; split; reflexivity);
  try (intros [? ?]; congruence);
  eauto.

Lemma sink_outcomes (env : SinkEnv) (f : migrationFields) r w :
  controlLock f = false ->
  Sink.Do env (start f) = (r, w) ->
  (r = Ret None ->
   count isDelete (log w) = 0%nat /\ sentControls (log w) = [None]) /\
  (forall e, r = Ret (Some e) ->
   count isDelete (log w) = 1%nat /\ sentControls (log w) = []) /\
  (r = Panic ->
   count isDelete (log w) = 1%nat /\ sentControls (log w) = []) /\
  (r = Block ->
   exists e, sentControls (log w) = [Some e] /\
     ((count isDelete (log w) = 1%nat /\ sinkCalls (worker w) = []) \/
      (count isDelete (log w) = 0%nat /\
       length (sinkCalls (worker w)) = 1%nat))).
Proof.
  intros Hl H.
  destruct env as [dc df dcr rh mt ss msr rmsr sh td rr mg sf ta].
  destruct f as [lv cs cc lk crs crc fss fsc ct]. cbn in Hl. subst.
  run H; close_sink H.
Qed.

Ltac sink_setup env f :=
  destruct env as [dc df dcr rh mt ss msr rmsr sh td rr mg sf ta];
  destruct f as [lv cs cc lk crs crc fss fsc ct];
  cbn [dialControl dialFs dialCriu sinkRecvHeader sinkSend sourceFirst
       MigrationSinkRes rsyncMigrationSinkRes ShiftIfNecessary sinkTempDir
       RsyncRecv sinkMigrate sinkMigrationType TemplateApply live controlLock
       sinkRes] in *.

Ltac sink_live lv Hcr :=
  destruct lv;
  [ destruct (Hcr eq_refl) as [? ?] | ];
  clear Hcr.

Ltac close_path H :=
  try (exfalso; eapply legacySnapshots_not_none; eassumption);
  try congruence;
  done_run H;
  cbv [count filter length sentControls flat_map app isDelete];
  repeat split; try reflexivity; try congruence; eauto.

Lemma sink_early_paths (env : SinkEnv) (f : migrationFields) r w :
  controlLock f = false ->
  Sink.Do env (start f) = (r, w) ->
  (forall err, dialControl env = inl err -> r = Ret (Some err)) /\
  (forall c1 err,
      dialControl env = inr c1 -> dialFs env = inl err ->
      r = Block /\ count isDelete (log w) = 1%nat /\
      sentControls (log w) = [Some err]) /\
  (forall c1 c2 err,
      dialControl env = inr c1 -> dialFs env = inr c2 ->
      live f = true -> dialCriu env = inl err ->
      r = Block /\ count isDelete (log w) = 1%nat /\
      sentControls (log w) = [Some err]).
Proof.
  intros Hl H. sink_setup env f. subst lk.
  split; [|split].
  - intros err ->. run H; close_path H.
  - intros c1 err -> ->. run H; close_path H.
  - intros c1 c2 err -> -> -> ->. run H; close_path H.
Qed.

Lemma sink_handshake_paths (env : SinkEnv) (f : migrationFields) r w
    (c1 c2 : Conn) :
  controlLock f = false ->
  dialControl env = inr c1 -> dialFs env = inr c2 ->
  (live f = true -> exists c3, dialCriu env = inr c3) ->
  Sink.Do env (start f) = (r, w) ->
  (forall err,
      sinkRecvHeader env = inl err ->
      r = Block /\ count isDelete (log w) = 1%nat /\
      sentControls (log w) = [Some err]) /\
  (forall opening err,
      sinkRecvHeader env = inr opening -> sinkSend env = Some err ->
      r = Block /\ count isDelete (log w) = 1%nat /\
      sentControls (log w) = [Some err]).
Proof.
  intros Hl H1 H2 Hcr H. sink_setup env f. subst lk dc df.
  sink_live lv Hcr; subst; (split; [intros err -> | intros opening err -> ->]);
    run H; close_path H.
Qed.

Lemma sink_source_paths (env : SinkEnv) (f : migrationFields) r w
    (c1 c2 : Conn) (opening : MigrationHeader) :
  controlLock f = false ->
  dialControl env = inr c1 -> dialFs env = inr c2 ->
  (live f = true -> exists c3, dialCriu env = inr c3) ->
  sinkRecvHeader env = inr opening -> sinkSend env = None ->
  Sink.Do env (start f) = (r, w) ->
  (sourceFirst env = Some None ->
   r = Ret (Some (Errorf "Got error reading source"))) /\
  (forall m,
      sourceFirst env = Some (Some (mkMigrationControl false (Some m))) ->
      r = Ret (Some (Errorf m))) /\
  (forall msg err,
      sourceFirst env = Some (Some msg) -> Success msg = true ->
      TemplateApply env = Some err ->
      r = Ret (Some err)).
Proof.
  intros Hl H1 H2 Hcr Hh Hs H. sink_setup env f. subst lk dc df rh ss.
  sink_live lv Hcr; subst;
    (split; [intros -> | split; [intros m -> | intros [sc ms] err -> Hsc ->;
                                               cbn in Hsc; subst sc]]);
    run H; close_path H.
Qed.

Lemma sink_restore_paths (env : SinkEnv) (f : migrationFields) r w
    (c1 c2 : Conn) (opening : MigrationHeader) :
  controlLock f = false ->
  dialControl env = inr c1 -> dialFs env = inr c2 ->
  (live f = true -> exists c3, dialCriu env = inr c3) ->
  sinkRecvHeader env = inr opening -> sinkSend env = None ->
  sourceFirst env = None \/
  (exists msg, sourceFirst env = Some (Some msg) /\
               Success msg = true /\ TemplateApply env = None) ->
  Sink.Do env (start f) = (r, w) ->
  let restored :=
    sinkRes env (fst (chooseSink (Fs opening) (sinkMigrationType env))) = None /\
    ShiftIfNecessary env = None /\
    (live f = true ->
     (exists d, sinkTempDir env = inr d) /\
     RsyncRecv env = None /\ sinkMigrate env = None) in
  (restored -> r = Ret None) /\
  (~ restored ->
   r = Block /\ count isDelete (log w) = 0%nat /\
   exists e, sentControls (log w) = [Some e]).
Proof.
  intros Hl H1 H2 Hcr Hh Hs Hsf H. sink_setup env f. subst lk dc df rh ss.
  destruct opening as [ofs ocr oid osn osp]. cbn [Fs].
  assert (sf = None \/ exists ms, sf = Some (Some (mkMigrationControl true ms))
                                   /\ ta = None) as Hsf'.
  { destruct Hsf as [?|([sc ms] & ? & Hsc & ?)]; [now left|].
    cbn in Hsc. subst. right. eauto. }
  clear Hsf.
  cbv zeta.
  destruct ofs, mt; cbn [chooseSink MigrationFSType_eqb negb fst];
    sink_live lv Hcr;
    (destruct Hsf' as [->|(ms & -> & ->)]);
    (split; [intros (Hr & Hsh & Hlv) | intros Hn]).
  all: cbn [sinkRes chooseSink MigrationFSType_eqb negb fst MigrationSinkRes
              rsyncMigrationSinkRes ShiftIfNecessary sinkTempDir RsyncRecv
              sinkMigrate live] in *.
  all: try (destruct (Hlv eq_refl) as ((d & Hd) & Hrr & Hmg)); try clear Hlv.
  all: subst.
  all: run H.
  all: try (exfalso; eapply legacySnapshots_not_none; eassumption).
  all: try congruence.
  all: done_run H.
  all: cbv [count filter length sentControls flat_map app isDelete].
  all: try reflexivity.
  all: try (repeat split; try reflexivity; eauto; fail).
  all: exfalso; apply Hn; repeat split; intros; try congruence; eauto.
Qed.

(** C1.  What the sink's Do does with the container and the control
    channel, on every path.  A run that returns success has deleted
    nothing and has sent one MigrationControl, announcing success; a run
    that returns an error, or panics, has deleted the container once and
    has sent no MigrationControl.  Every other failure ends in a run that
    never returns: Do writes the failure on the control channel and then
    waits for ever inside sendControl.  When the failure is found before
    the restore goroutine starts (fs or criu dial, receiving the header,
    sending the echo) the container was deleted first; when the restore
    itself fails (the storage receiver, the ownership shift, the image
    directory, the checkpoint receive or the restore of the checkpoint)
    sendControl is called before Delete, so the container is never
    deleted. *)
Theorem sink_Do_delete_on_every_path (env : SinkEnv) (f : migrationFields) :
  controlLock f = false ->
  let r := fst (Sink.Do env (start f)) in
  let w := snd (Sink.Do env (start f)) in
  ((r = Ret None ->
    count isDelete (log w) = 0%nat /\ sentControls (log w) = [None]) /\
   (forall e, r = Ret (Some e) ->
    count isDelete (log w) = 1%nat /\ sentControls (log w) = []) /\
   (r = Panic ->
    count isDelete (log w) = 1%nat /\ sentControls (log w) = []) /\
   (r = Block ->
    exists e, sentControls (log w) = [Some e] /\
      ((count isDelete (log w) = 1%nat /\ sinkCalls (worker w) = []) \/
       (count isDelete (log w) = 0%nat /\
        length (sinkCalls (worker w)) = 1%nat)))) /\
  ((forall err, dialControl env = inl err -> r = Ret (Some err)) /\
   (forall c1 err,
       dialControl env = inr c1 -> dialFs env = inl err ->
       r = Block /\ count isDelete (log w) = 1%nat /\
       sentControls (log w) = [Some err]) /\
   (forall c1 c2 err,
       dialControl env = inr c1 -> dialFs env = inr c2 ->
       live f = true -> dialCriu env = inl err ->
       r = Block /\ count isDelete (log w) = 1%nat /\
       sentControls (log w) = [Some err]) /\
   (forall c1 c2,
       dialControl env = inr c1 -> dialFs env = inr c2 ->
       (live f = true -> exists c3, dialCriu env = inr c3) ->
       (forall err,
           sinkRecvHeader env = inl err ->
           r = Block /\ count isDelete (log w) = 1%nat /\
           sentControls (log w) = [Some err]) /\
       (forall opening err,
           sinkRecvHeader env = inr opening -> sinkSend env = Some err ->
           r = Block /\ count isDelete (log w) = 1%nat /\
           sentControls (log w) = [Some err]) /\
       (forall opening,
           sinkRecvHeader env = inr opening -> sinkSend env = None ->
           (sourceFirst env = Some None ->
            r = Ret (Some (Errorf "Got error reading source"))) /\
           (forall m,
               sourceFirst env = Some (Some (mkMigrationControl false (Some m))) ->
               r = Ret (Some (Errorf m))) /\
           (forall msg err,
               sourceFirst env = Some (Some msg) -> Success msg = true ->
               TemplateApply env = Some err ->
               r = Ret (Some err)) /\
           (sourceFirst env = None \/
            (exists msg, sourceFirst env = Some (Some msg) /\
                         Success msg = true /\ TemplateApply env = None) ->
            let restored :=
              sinkRes env (fst (chooseSink (Fs opening) (sinkMigrationType env)))
                = None /\
              ShiftIfNecessary env = None /\
              (live f = true ->
               (exists d, sinkTempDir env = inr d) /\
               RsyncRecv env = None /\ sinkMigrate env = None) in
            (restored -> r = Ret None) /\
            (~ restored ->
             r = Block /\ count isDelete (log w) = 0%nat /\
             exists e, sentControls (log w) = [Some e]))))).
Proof.
  intros Hl. cbv zeta.
  destruct (Sink.Do env (start f)) as [r w] eqn:H. cbn [fst snd].
  split; [exact (sink_outcomes env f r w Hl H)|].
  destruct (sink_early_paths env f r w Hl H) as (E1 & E2 & E3).
  split; [exact E1|]. split; [exact E2|]. split; [exact E3|].
  intros c1 c2 H1 H2 Hcr.
  destruct (sink_handshake_paths env f r w c1 c2 Hl H1 H2 Hcr H) as (A1 & A2).
  split; [exact A1|]. split; [exact A2|].
  intros opening Hh Hs.
  destruct (sink_source_paths env f r w c1 c2 opening Hl H1 H2 Hcr Hh Hs H)
    as (B1 & B2 & B3).
  split; [exact B1|]. split; [exact B2|]. split; [exact B3|].
  intros Hsf.
  exact (sink_restore_paths env f r w c1 c2 opening Hl H1 H2 Hcr Hh Hs Hsf H).
Qed.

(** The storage receiver fails in a migration that is not live: the failure
    is written on the control channel, Do never returns, and the container
    is not deleted. *)
Lemma sink_Do_delete_on_every_path_witness :
  let env := Sample.sink (inr 1%nat) (Sample.opening []) ZFS
               (Some Sample.ioError) None in
  fst (Sink.Do env (start Sample.cold)) = Block /\
  count isDelete (log (snd (Sink.Do env (start Sample.cold)))) = 0%nat /\
  exists e,
    sentControls (log (snd (Sink.Do env (start Sample.cold)))) = [Some e].
Proof.
  cbv zeta.
  pose proof (sink_Do_delete_on_every_path
                (Sample.sink (inr 1%nat) (Sample.opening []) ZFS
                   (Some Sample.ioError) None)
                Sample.cold eq_refl) as H.
  cbv zeta in H. destruct H as (_ & _ & _ & _ & H).
  specialize (H 1%nat 2%nat eq_refl eq_refl ltac:(cbn; discriminate)).
  destruct H as (_ & _ & H).
  specialize (H (Sample.opening []) eq_refl eq_refl).
  destruct H as (_ & _ & _ & H).
  specialize (H (or_introl eq_refl)). destruct H as (_ & H).
  apply H. intros [Hx _]. discriminate Hx.
Defined.

(** The control socket cannot be dialled: Do deletes the container and
    returns the error, and no MigrationControl has been sent. *)
Example sink_control_dial_failure_sends_no_control :
  let r := Sink.Do (Sample.sink (inl Sample.ioError) (Sample.opening [])
                      ZFS None None)
             (start Sample.cold) in
  fst r = Ret (Some Sample.ioError) /\
  count isDelete (log (snd r)) = 1%nat /\
  count isSendControl (log (snd r)) = 0%nat.
Proof. cbv. auto. Qed.

(** ** Negotiation of the filesystem type (claim C5) *)

Lemma sink_negotiation (env : SinkEnv) (f : migrationFields) r w
    (c1 c2 c3 : Conn) (opening : MigrationHeader) :
  controlLock f = false ->
  dialControl env = inr c1 -> dialFs env = inr c2 -> dialCriu env = inr c3 ->
  sinkRecvHeader env = inr opening ->
  Fs opening <> sinkMigrationType env ->
  sinkSend env = None ->
  Sink.Do env (start f) = (r, w) ->
  sentHeaders (log w) =
    [mkMigrationHeader RSYNC (if live f then Some CRIU_RSYNC else None)
       [] [] []] /\
  map (fun x => fst (fst x)) (sinkCalls (worker w)) = [RsyncDriver] /\
  count usesOwnDriver (worker w) = 0%nat.
Proof.
  intros Hl H1 H2 H3 Hh Hne Hs H. destruct env, f, opening.
  cbn in Hl, H1, H2, H3, Hh, Hne, Hs. subst.
  run H;
    try (exfalso; eapply legacySnapshots_not_none; eassumption);
    try congruence;
    done_run H; cbv; auto.
Qed.

Lemma source_negotiation (env : SourceEnv) (f : migrationFields) r w
    (c1 c2 c3 : Conn) (own rd : SourceDriver)
    (idmapset : option (list IdmapEntry)) (echo : MigrationHeader) :
  controlLock f = false ->
  (live f = false -> StorageStart env = None) ->
  IdmapSet env = inr idmapset ->
  MigrationSource env = inr own ->
  fst (rangeSnapshots (Snapshots_ own) []) <> None ->
  sendHeader env = None ->
  recvHeader env = inr echo ->
  Fs echo <> MigrationType env ->
  rsyncMigrationSource env = Some rd ->
  Source.Do env (attached f c1 c2 c3) = (r, w) ->
  filter isSendWhileRunning (log w) = [EvSendWhileRunning RsyncDriver] /\
  count usesOwnDriver (log w) = 0%nat /\
  length (sentHeaders (log w)) = 1%nat.
Proof.
  intros Hl Hst Hi Hm Hsn Hh Hr Hne Hrs H. destruct env, f, echo, own.
  cbn in Hl, Hst, Hi, Hm, Hsn, Hh, Hr, Hne, Hrs. subst.
  run H;
    try (specialize (Hst eq_refl); discriminate);
    try (cbn in Hsn; congruence);
    try congruence;
    done_run H; cbv; auto.
Qed.

Lemma source_on_lvm (env : SourceEnv) (f : migrationFields) r w
    (c1 c2 c3 : Conn) (rd : SourceDriver)
    (idmapset : option (list IdmapEntry)) (echo : MigrationHeader) :
  controlLock f = false ->
  (live f = false -> StorageStart env = None) ->
  IdmapSet env = inr idmapset ->
  fst (rangeSnapshots (Snapshots_ rd) []) <> None ->
  sendHeader env = None ->
  recvHeader env = inr echo ->
  Fs echo = RSYNC ->
  Source.Do (onStorage storageLvm (inr rd) env) (attached f c1 c2 c3) = (r, w) ->
  filter isSendWhileRunning (log w) = [EvSendWhileRunning OwnDriver] /\
  map Fs (sentHeaders (log w)) = [RSYNC].
Proof.
  intros Hl Hst Hi Hsn Hh Hr He H.
  destruct env as [st ids ms mt sh rh rms td lx rcs oc was aor ddf mg rs rc].
  destruct f as [lv cs cc lk crs crc fss fsc ct].
  destruct echo as [efs ecr eid esn esp].
  destruct rd as [rsn rsw rsa].
  cbn in Hl, Hst, Hi, Hsn, Hh, Hr, He. subst.
  unfold onStorage in H.
  cbn [StorageStart IdmapSet sendHeader recvHeader rsyncMigrationSource
       TempDir RuntimeLiblxcVersionAtLeast_2_0_4 RandomCryptoString
       operationCreate writeActionScriptRes actionScriptOpRun dumpDoneFirst
       Migrate RsyncSend recvControl storage_MigrationSource
       storage_MigrationType] in H.
  run H;
    try (specialize (Hst eq_refl); discriminate);
    try (cbn in Hsn; congruence);
    try congruence;
    done_run H; cbv; auto.
Qed.

Lemma source_on_mock (env : SourceEnv) (f : migrationFields) r w
    (c1 c2 c3 : Conn) (rsync : error + SourceDriver) :
  Source.Do (onStorage storageMock rsync env) (attached f c1 c2 c3) = (r, w) ->
  filter isSendWhileRunning (log w) = [] /\ r <> Ret None.
Proof.
  intros H.
  destruct env as [st ids ms mt sh rh rms td lx rcs oc was aor ddf mg rs rc].
  destruct f as [lv cs cc lk crs crc fss fsc ct].
  unfold onStorage in H.
  cbn [StorageStart IdmapSet sendHeader recvHeader rsyncMigrationSource
       TempDir RuntimeLiblxcVersionAtLeast_2_0_4 RandomCryptoString
       operationCreate writeActionScriptRes actionScriptOpRun dumpDoneFirst
       Migrate RsyncSend recvControl storage_MigrationSource
       storage_MigrationType] in H.
  run H; done_run H; cbv; (split; [reflexivity | discriminate]).
Qed.

(** C5.  When the source's fs type S and the sink's fs type K differ, the
    sink echoes RSYNC and calls the rsync receiver, and the source ends
    with the type RSYNC.  A source whose own type is not RSYNC reads an
    echoed type different from its own, sets its type to RSYNC and replaces
    its driver by the rsync source driver, which it then uses for the
    transfer.  A source whose own type is RSYNC reads its own type back
    and keeps the driver of its storage.  Two backends under src/ report
    RSYNC: on LVM that driver is the one rsyncMigrationSource returned; on
    the mock backend, which has no driver, Do never starts a transfer and
    never succeeds.  Each side sends exactly one header. *)
Theorem fs_mismatch_falls_back_to_rsync (S K : MigrationFSType) :
  S <> K ->
  chooseSink S K = (RsyncDriver, RSYNC) /\
  (forall senv f c1 c2 c3 opening,
      controlLock f = false ->
      dialControl senv = inr c1 -> dialFs senv = inr c2 ->
      dialCriu senv = inr c3 -> sinkRecvHeader senv = inr opening ->
      Fs opening = S -> sinkMigrationType senv = K -> sinkSend senv = None ->
      let w := snd (Sink.Do senv (start f)) in
      sentHeaders (log w) =
        [mkMigrationHeader RSYNC (if live f then Some CRIU_RSYNC else None)
           [] [] []] /\
      map (fun x => fst (fst x)) (sinkCalls (worker w)) = [RsyncDriver] /\
      count usesOwnDriver (worker w) = 0%nat) /\
  (forall env own echo,
      Fs echo = snd (chooseSink S K) ->
      fst (fst (renegotiate env S own echo)) = RSYNC /\
      Fs (snd (fst (renegotiate env S own echo))) = RSYNC /\
      (S <> RSYNC ->
       snd (renegotiate env S own echo) =
       option_map (pair RsyncDriver) (rsyncMigrationSource env)) /\
      (S = RSYNC ->
       renegotiate env S own echo = (RSYNC, echo, Some (OwnDriver, own)))) /\
  (forall env f c1 c2 c3 own rd idmapset echo,
      controlLock f = false ->
      (live f = false -> StorageStart env = None) ->
      IdmapSet env = inr idmapset ->
      MigrationSource env = inr own ->
      fst (rangeSnapshots (Snapshots_ own) []) <> None ->
      sendHeader env = None ->
      recvHeader env = inr echo ->
      MigrationType env = S ->
      Fs echo = snd (chooseSink S K) ->
      S <> RSYNC ->
      rsyncMigrationSource env = Some rd ->
      let w := snd (Source.Do env (attached f c1 c2 c3)) in
      filter isSendWhileRunning (log w) = [EvSendWhileRunning RsyncDriver] /\
      count usesOwnDriver (log w) = 0%nat /\
      length (sentHeaders (log w)) = 1%nat) /\
  (forall env f c1 c2 c3 rd idmapset echo,
      controlLock f = false ->
      (live f = false -> StorageStart env = None) ->
      IdmapSet env = inr idmapset ->
      fst (rangeSnapshots (Snapshots_ rd) []) <> None ->
      sendHeader env = None ->
      recvHeader env = inr echo ->
      S = RSYNC ->
      Fs echo = snd (chooseSink S K) ->
      let lvm := onStorage storageLvm (inr rd) env in
      let w := snd (Source.Do lvm (attached f c1 c2 c3)) in
      MigrationType lvm = S /\
      MigrationSource lvm = inr rd /\
      filter isSendWhileRunning (log w) = [EvSendWhileRunning OwnDriver] /\
      map Fs (sentHeaders (log w)) = [RSYNC]) /\
  (forall env f c1 c2 c3 rsync,
      S = RSYNC ->
      let mock := onStorage storageMock rsync env in
      let r := Source.Do mock (attached f c1 c2 c3) in
      MigrationType mock = S /\
      filter isSendWhileRunning (log (snd r)) = [] /\
      fst r <> Ret None).
Proof.
  intros HSK.
  assert (chooseSink S K = (RsyncDriver, RSYNC)) as Hc
      by (destruct S, K; try congruence; reflexivity).
  split; [exact Hc|]. rewrite Hc. cbn [snd].
  split; [|split; [|split; [|split]]].
  - intros senv f c1 c2 c3 opening Hl H1 H2 H3 Hh HS HK Hs. cbv zeta.
    destruct (Sink.Do senv (start f)) as [r w] eqn:E.
    apply (sink_negotiation senv f r w c1 c2 c3 opening);
      auto; congruence.
  - intros env own echo He. unfold renegotiate. rewrite He.
    destruct echo as [efs ecr eid esn esp]. cbn in He. subst efs.
    destruct S; repeat split; intros HS; try congruence; reflexivity.
  - intros env f c1 c2 c3 own rd idmapset echo
      Hl Hst Hi Hm Hsn Hh Hr HT He HS Hrs. cbv zeta.
    destruct (Source.Do env (attached f c1 c2 c3)) as [r w] eqn:E.
    apply (source_negotiation env f r w c1 c2 c3 own rd idmapset echo);
      auto; congruence.
  - intros env f c1 c2 c3 rd idmapset echo Hl Hst Hi Hsn Hh Hr HS He.
    cbv zeta. subst S.
    split; [reflexivity|]. split; [reflexivity|].
    destruct (Source.Do (onStorage storageLvm (inr rd) env)
                (attached f c1 c2 c3)) as [r w] eqn:E.
    exact (source_on_lvm env f r w c1 c2 c3 rd idmapset echo
             Hl Hst Hi Hsn Hh Hr He E).
  - intros env f c1 c2 c3 rsync HS. cbv zeta. subst S.
    split; [reflexivity|].
    destruct (Source.Do (onStorage storageMock rsync env)
                (attached f c1 c2 c3)) as [r w] eqn:E.
    exact (source_on_mock env f r w c1 c2 c3 rsync E).
Qed.

(** Two runs of the source against a sink on ZFS: from BTRFS the transfer
    is made on the driver that Do fetched from rsyncMigrationSource; from
    LVM it is made on the storage's driver, which is the rsync driver. *)
Lemma fs_mismatch_falls_back_to_rsync_witness :
  (chooseSink BTRFS ZFS = (RsyncDriver, RSYNC) /\
   filter isSendWhileRunning
     (log (snd (Source.Do
                  (Sample.source (inr Sample.driver) BTRFS RSYNC None None)
                  (attached Sample.cold 1%nat 2%nat 3%nat)))) =
   [EvSendWhileRunning RsyncDriver]) /\
  (chooseSink RSYNC ZFS = (RsyncDriver, RSYNC) /\
   MigrationSource
     (onStorage storageLvm (inr Sample.driver)
        (Sample.source (inr Sample.driver) RSYNC RSYNC None None)) =
   inr Sample.driver /\
   filter isSendWhileRunning
     (log (snd (Source.Do
                  (onStorage storageLvm (inr Sample.driver)
                     (Sample.source (inr Sample.driver) RSYNC RSYNC None None))
                  (attached Sample.cold 1%nat 2%nat 3%nat)))) =
   [EvSendWhileRunning OwnDriver]).
Proof.
  split.
  - pose proof (fs_mismatch_falls_back_to_rsync BTRFS ZFS
                  ltac:(discriminate)) as (H1 & _ & _ & H4 & _).
    split; [exact H1|].
    refine (proj1 (H4 (Sample.source (inr Sample.driver) BTRFS RSYNC None None)
                     Sample.cold 1%nat 2%nat 3%nat Sample.driver Sample.driver
                     (Some [mkIdmapEntry true false 100000 0 65536])
                     (mkMigrationHeader RSYNC None [] [] [])
                     eq_refl (fun _ => eq_refl) eq_refl eq_refl _ eq_refl
                     eq_refl eq_refl eq_refl _ eq_refl)); discriminate.
  - pose proof (fs_mismatch_falls_back_to_rsync RSYNC ZFS
                  ltac:(discriminate)) as (H1 & _ & _ & _ & H5 & _).
    split; [exact H1|].
    pose proof (H5 (Sample.source (inr Sample.driver) RSYNC RSYNC None None)
                  Sample.cold 1%nat 2%nat 3%nat Sample.driver
                  (Some [mkIdmapEntry true false 100000 0 65536])
                  (mkMigrationHeader RSYNC None [] [] [])
                  eq_refl (fun _ => eq_refl) eq_refl ltac:(discriminate)
                  eq_refl eq_refl eq_refl eq_refl) as H.
    cbv zeta in H. destruct H as (_ & H2 & H3 & _).
    split; [exact H2 | exact H3].
Defined.

(** ** ID maps in the runs (claim C10) *)

Lemma source_sends_narrowed_idmap (env : SourceEnv) (f : migrationFields)
    (c1 c2 c3 : Conn) r w :
  Source.Do env (attached f c1 c2 c3) = (r, w) ->
  Forall (fun h => Idmap h = match IdmapSet env with
                             | inr (Some l) => map idmapToProto l
                             | _ => []
                             end)
    (sentHeaders (log w)).
Proof.
  intros H. destruct env, f. cbn [IdmapSet].
  run H; done_run H; cbv [sentHeaders flat_map app];
    repeat constructor.
Qed.

Lemma sink_widens_idmap (env : SinkEnv) (f : migrationFields) r w :
  Sink.Do env (start f) = (r, w) ->
  Forall (fun x => snd x = match sinkRecvHeader env with
                           | inr h => map idmapOfProto (Idmap h)
                           | inl _ => []
                           end)
    (sinkCalls (worker w)).
Proof.
  intros H. destruct env, f. cbn [sinkRecvHeader].
  run H; done_run H; cbv [sinkCalls flat_map app];
    repeat constructor; cbn [snd]; rewrite ?srcIdmapOf_map; reflexivity.
Qed.

(** C10.  An ID-map entry crosses the wire through [int32] and back
    through [int64]: each number arrives reduced modulo 2^32 into the signed
    32-bit range, and the entry is preserved exactly if and only if its
    three numbers are representable in 32 bits.  The header the source
    sends carries the narrowed entries, and the sink hands the storage
    receiver the widened entries of the header it received. *)
Theorem idmap_wire_roundtrip :
  (forall e,
      let e' := idmapOfProto (idmapToProto e) in
      eIsuid e' = eIsuid e /\ eIsgid e' = eIsgid e /\
      eHostid e' = (eHostid e + 2 ^ 31) mod 2 ^ 32 - 2 ^ 31 /\
      eNsid e' = (eNsid e + 2 ^ 31) mod 2 ^ 32 - 2 ^ 31 /\
      eMaprange e' = (eMaprange e + 2 ^ 31) mod 2 ^ 32 - 2 ^ 31) /\
  (forall e,
      idmapOfProto (idmapToProto e) = e <->
      representable32 (eHostid e) /\ representable32 (eNsid e) /\
      representable32 (eMaprange e)) /\
  (forall fs criu l names snaps,
      srcIdmapOf (mkMigrationHeader fs criu (map idmapToProto l) names snaps) =
      map (fun e => idmapOfProto (idmapToProto e)) l) /\
  (forall env f c1 c2 c3,
      Forall (fun h => Idmap h = match IdmapSet env with
                                 | inr (Some l) => map idmapToProto l
                                 | _ => []
                                 end)
        (sentHeaders (log (snd (Source.Do env (attached f c1 c2 c3)))))) /\
  (forall env f,
      Forall (fun x => snd x = match sinkRecvHeader env with
                               | inr h => map idmapOfProto (Idmap h)
                               | inl _ => []
                               end)
        (sinkCalls (worker (snd (Sink.Do env (start f)))))).
Proof.
  split; [|split; [|split; [|split]]].
  - intros [u g a b c]. cbn. unfold int64. rewrite !int32_mod. auto.
  - intros [u g a b c]. cbn [eHostid eNsid eMaprange]. split.
    + intros H. unfold idmapOfProto, idmapToProto in H. cbn in H.
      injection H as Ha Hb Hc.
      repeat split; apply int32_id_iff; assumption.
    + intros (Ha & Hb & Hc).
      apply int32_id_iff in Ha, Hb, Hc. unfold int64 in *.
      unfold idmapOfProto, idmapToProto, int64. cbn.
      rewrite Ha, Hb, Hc. reflexivity.
  - intros. rewrite srcIdmapOf_map. cbn [Idmap]. apply map_map.
  - intros env f c1 c2 c3.
    destruct (Source.Do env (attached f c1 c2 c3)) as [r w] eqn:H.
    exact (source_sends_narrowed_idmap env f c1 c2 c3 r w H).
  - intros env f.
    destruct (Sink.Do env (start f)) as [r w] eqn:H.
    exact (sink_widens_idmap env f r w H).
Qed.

(** An entry beyond 32 bits does not survive the crossing. *)
Example idmap_wide_entry_wraps :
  idmapOfProto (idmapToProto (mkIdmapEntry true false 4294967296 0 65536)) =
  mkIdmapEntry true false 0 0 65536 /\
  idmapOfProto (idmapToProto (mkIdmapEntry true false 2147483648 0 65536)) =
  mkIdmapEntry true false (-2147483648) 0 65536.
Proof. split; reflexivity. Qed.

(** ** Helpers of package shared *)

Lemma length_append (a b : string) :
  String.length (a ++ b) = (String.length a + String.length b)%nat.
Proof. induction a as [|c a IH]; cbn; [reflexivity | now rewrite IH]. Qed.

Lemma append_assoc (a b c : string) : (a ++ b) ++ c = a ++ (b ++ c).
Proof. induction a as [|d a IH]; cbn; [reflexivity | now rewrite IH]. Qed.

Lemma append_nil_r (a : string) : a ++ "" = a.
Proof. induction a as [|d a IH]; cbn; [reflexivity | now rewrite IH]. Qed.

Lemma lastByte_none (s : string) : shared.lastByte s = None <-> s = "".
Proof.
  split; [|intros ->; reflexivity].
  induction s as [|c s IH]; [reflexivity|]. cbn [shared.lastByte].
  destruct s; [discriminate|]. intros H. apply IH in H. discriminate.
Qed.

Lemma lastByte_app (s : string) (c : ascii) :
  shared.lastByte (s ++ String c "") = Some c.
Proof.
  induction s as [|d s IH]; [reflexivity|].
  change (String d s ++ String c "") with (String d (s ++ String c "")).
  cbn [shared.lastByte]. rewrite IH.
  destruct (s ++ String c "") eqn:E; [|reflexivity].
  destruct s; discriminate.
Qed.

Lemma lastByte_some (s : string) (c : ascii) :
  shared.lastByte s = Some c -> exists r, s = r ++ String c "".
Proof.
  induction s as [|d s IH]; [discriminate|]. cbn [shared.lastByte].
  destruct s as [|e s].
  - intros H. injection H as ->. exists "". reflexivity.
  - intros H. destruct (IH H) as [r ->]. exists (String d r). reflexivity.
Qed.

(** AddSlash panics on the empty path and on no other; on any other path
    its result ends with "/", is the path itself or the path followed by
    "/", and is left unchanged by a second AddSlash. *)
Theorem AddSlash_spec (path : string) :
  (shared.AddSlash path = None <-> path = "") /\
  (forall q, shared.AddSlash path = Some q ->
             (exists r, q = r ++ "/") /\
             (q = path \/ q = path ++ "/") /\
             (q = path <-> exists r, path = r ++ "/") /\
             shared.AddSlash q = Some q).
Proof.
  unfold shared.AddSlash. split.
  - rewrite <- lastByte_none. destruct (shared.lastByte path) as [c|].
    + split; [|discriminate]. destruct (Ascii.eqb c "/"); discriminate.
    + split; reflexivity.
  - intros q. destruct (shared.lastByte path) as [c|] eqn:E; [|discriminate].
    destruct (Ascii.eqb_spec c "/") as [->|Hc]; intros H; injection H as <-.
    + destruct (lastByte_some _ _ E) as [r Hr].
      repeat split; eauto. rewrite E. reflexivity.
    + repeat split.
      * eauto.
      * auto.
      * intros H. exfalso.
        assert (String.length (path ++ "/") = String.length path) as L
            by now rewrite H.
        rewrite length_append in L. cbn in L. lia.
      * intros [r Hr]. exfalso. subst path.
        rewrite (lastByte_app r "/") in E. congruence.
      * rewrite (lastByte_app path "/"). reflexivity.
Qed.

Lemma AddSlash_spec_witness :
  shared.AddSlash "/tmp/lxd_checkpoint_1/" = Some "/tmp/lxd_checkpoint_1/".
Proof.
  exact (proj2 (proj2 (proj2 (proj2 (AddSlash_spec "/tmp/lxd_checkpoint_1")
                                "/tmp/lxd_checkpoint_1/" eq_refl)))).
Defined.

(** StringInSlice answers whether the key is an element of the list. *)
Theorem StringInSlice_In (key : string) (l : list string) :
  shared.StringInSlice key l = true <-> In key l.
Proof.
  induction l as [|e l IH]; cbn [shared.StringInSlice In].
  - split; [discriminate | contradiction].
  - destruct (String.eqb_spec e key) as [->|Hne].
    + split; auto.
    + rewrite IH. split; [auto | intros [H|H]; [congruence | exact H]].
Qed.

(** ** Snapshot names *)

Lemma no_delimiter_cons (c : ascii) (s : string) :
  ~ has_delimiter (String c s) -> c <> "/"%char /\ ~ has_delimiter s.
Proof.
  intros H. split.
  - intros ->. apply H. exists "", s. reflexivity.
  - intros (a & b & ->). apply H. exists (String c a), b. reflexivity.
Qed.

Lemma cut_at_first_delimiter (name snap : string) :
  ~ has_delimiter name ->
  shared.cut shared.SnapshotDelimiter (name ++ shared.SnapshotDelimiter ++ snap)
  = Some (name, snap).
Proof.
  induction name as [|c name IH]; intros H.
  - change ("" ++ shared.SnapshotDelimiter ++ snap) with (String "/" snap).
    destruct snap; reflexivity.
  - apply no_delimiter_cons in H as [Hc Hn].
    change (String c name ++ shared.SnapshotDelimiter ++ snap)
      with (String c (name ++ shared.SnapshotDelimiter ++ snap)).
    rewrite cut_cons, (IH Hn). cbn [prefix shared.SnapshotDelimiter].
    destruct (ascii_dec "/" c) as [E|_]; [congruence|]. reflexivity.
Qed.

Lemma IsSnapshot_true_iff (name : string) :
  shared.IsSnapshot name = true <-> has_delimiter name.
Proof.
  unfold shared.IsSnapshot, shared.Contains.
  pose proof (cut_none_iff name) as H.
  destruct (shared.cut shared.SnapshotDelimiter name) as [[a b]|] eqn:E.
  - split; [|reflexivity]. intros _. exists a, b. apply cut_sound, E.
  - split; [discriminate|]. intros Hd. exfalso. now apply (proj1 H).
Qed.

(** containerSnapRestore's normalisation always yields a snapshot name and
    leaves such a name unchanged; when the container's name has no
    delimiter, ExtractSnapshotName gives back the bare snapshot name it was
    built from. *)
Theorem normalizeSnapshotName_spec (name snap : string) :
  shared.IsSnapshot (normalizeSnapshotName name snap) = true /\
  normalizeSnapshotName name (normalizeSnapshotName name snap) =
  normalizeSnapshotName name snap /\
  (~ has_delimiter name -> ~ has_delimiter snap ->
   shared.ExtractSnapshotName (normalizeSnapshotName name snap) = Some snap).
Proof.
  assert (shared.IsSnapshot (normalizeSnapshotName name snap) = true) as H.
  { unfold normalizeSnapshotName.
    destruct (shared.IsSnapshot snap) eqn:E; cbn [negb]; [exact E|].
    apply IsSnapshot_true_iff. exists name, snap. reflexivity. }
  split; [exact H|]. split.
  - unfold normalizeSnapshotName at 1. now rewrite H.
  - intros Hn Hs. unfold normalizeSnapshotName.
    destruct (shared.IsSnapshot snap) eqn:E.
    + apply IsSnapshot_true_iff in E. contradiction.
    + cbn [negb]. unfold shared.ExtractSnapshotName, shared.SplitN2.
      now rewrite cut_at_first_delimiter.
Qed.

Lemma normalizeSnapshotName_spec_witness :
  shared.ExtractSnapshotName (normalizeSnapshotName "c1" "snap0") = Some "snap0".
Proof.
  apply (proj2 (proj2 (normalizeSnapshotName_spec "c1" "snap0"))).
  - apply cut_none_iff. reflexivity.
  - apply cut_none_iff. reflexivity.
Defined.

(** ** Host names *)

Lemma allChars_no_delimiter (p : ascii -> bool) (s : string) :
  p "/"%char = false -> shared.allChars p s = true -> ~ has_delimiter s.
Proof.
  intros Hp. induction s as [|c s IH]; cbn [shared.allChars]; intros H.
  - intros (a & b & E). destruct a; discriminate.
  - apply andb_prop in H as [Hc Hs]. intros (a & b & E).
    destruct a as [|d a].
    + cbn in E. injection E as -> _. congruence.
    + cbn in E. injection E as -> E. apply (IH Hs). now exists a, b.
Qed.

Lemma allChars_lastByte (p : ascii -> bool) (s : string) (c : ascii) :
  shared.allChars p s = true -> shared.lastByte s = Some c -> p c = true.
Proof.
  induction s as [|d s IH]; [discriminate|].
  cbn [shared.allChars shared.lastByte]. intros H E.
  apply andb_prop in H as [Hd Hs]. destruct s.
  - now injection E as <-.
  - now apply IH.
Qed.

(** A name accepted by ValidHostname has between 1 and 63 bytes, all of
    them letters, digits or "-"; it starts with a letter and ends with a
    letter or a digit; and it is never a snapshot name: it does not
    contain "/" and ExtractSnapshotName panics on it. *)
Theorem ValidHostname_sound (name : string) :
  shared.ValidHostname name = true ->
  (1 <= String.length name <= 63)%nat /\
  shared.allChars shared.hostnameChar name = true /\
  (exists c rest, name = String c rest /\
     (shared.between "a" "z" c || shared.between "A" "Z" c) = true) /\
  (exists c, shared.lastByte name = Some c /\
     (shared.between "a" "z" c || shared.between "A" "Z" c
      || shared.between "0" "9" c) = true) /\
  shared.IsSnapshot name = false /\
  shared.ExtractSnapshotName name = None.
Proof.
  unfold shared.ValidHostname.
  destruct ((String.length name <? 1)%nat || (63 <? String.length name)%nat)
    eqn:L; [discriminate|].
  apply orb_false_elim in L as [L1 L2].
  apply Nat.ltb_ge in L1, L2.
  destruct (prefix "-" name) eqn:P; [discriminate|].
  destruct name as [|c rest]; [cbn in L1; lia|].
  destruct (shared.isDigit c) eqn:D; [discriminate|].
  destruct (shared.lastByte (String c rest)) as [z|] eqn:Z;
    [|apply lastByte_none in Z; discriminate].
  destruct (Ascii.eqb z "-") eqn:Zm; [discriminate|].
  intros A.
  assert (~ has_delimiter (String c rest)) as Hnd
      by (apply (allChars_no_delimiter shared.hostnameChar);
          [reflexivity | exact A]).
  repeat split; try assumption.
  - exists c, rest. split; [reflexivity|].
    cbn [shared.allChars] in A. apply andb_prop in A as [Hc _].
    unfold shared.hostnameChar in Hc. unfold shared.isDigit in D.
    rewrite D, orb_false_r in Hc.
    assert (Ascii.eqb c "-" = false) as Hm.
    { cbn in P. destruct (ascii_dec "-" c) as [<-|Hne];
        [destruct rest; discriminate|].
      apply Ascii.eqb_neq. congruence. }
    now rewrite Hm in Hc.
  - exists z. split; [reflexivity|].
    pose proof (allChars_lastByte _ _ _ A Z) as Hz.
    unfold shared.hostnameChar in Hz. now rewrite Zm in Hz.
  - destruct (shared.IsSnapshot (String c rest)) eqn:E; [|reflexivity].
    apply IsSnapshot_true_iff in E. contradiction.
  - now apply ExtractSnapshotName_none_iff.
Qed.

Lemma ValidHostname_sound_witness :
  shared.IsSnapshot "c1" = false.
Proof.
  exact (proj1 (proj2 (proj2 (proj2 (proj2 (ValidHostname_sound "c1" eq_refl)))))).
Defined.

(** The checks ValidHostname makes one by one. *)
Example ValidHostname_rejects :
  shared.ValidHostname "" = false /\
  shared.ValidHostname "-c1" = false /\
  shared.ValidHostname "1c" = false /\
  shared.ValidHostname "c1-" = false /\
  shared.ValidHostname "c1/snap0" = false /\
  shared.ValidHostname "c_1" = false.
Proof. repeat split; reflexivity. Qed.

(** ** Paths in fstab *)

Lemma allChars_app (p : ascii -> bool) (a b : string) :
  shared.allChars p (a ++ b) = shared.allChars p a && shared.allChars p b.
Proof.
  induction a as [|c a IH]; cbn; [reflexivity | now rewrite IH, andb_assoc].
Qed.

Lemma escapeByte_cases (c : ascii) :
  (c = " "%char /\ shared.escapeByte c = "\040") \/
  (c = ascii_of_nat 9 /\ shared.escapeByte c = "\011") \/
  (c = ascii_of_nat 10 /\ shared.escapeByte c = "\012") \/
  (c = "\"%char /\ shared.escapeByte c = "\\") \/
  (isBlank c = false /\ c <> "\"%char /\ shared.escapeByte c = String c "").
Proof.
  unfold shared.escapeByte, isBlank.
  destruct (Ascii.eqb_spec c " ") as [->|H1]; [auto|].
  destruct (Ascii.eqb_spec c (ascii_of_nat 9)) as [->|H2]; [auto|].
  destruct (Ascii.eqb_spec c (ascii_of_nat 10)) as [->|H3]; [auto 6|].
  destruct (Ascii.eqb_spec c "\") as [->|H4]; [auto 6|].
  right. right. right. right. auto.
Qed.

Lemma unescape_escape (path : string) :
  unescape (shared.EscapePathFstab path) = path.
Proof.
  induction path as [|c rest IH]; [reflexivity|].
  cbn [shared.EscapePathFstab].
  destruct (escapeByte_cases c)
    as [[-> ->]|[[-> ->]|[[-> ->]|[[-> ->]|(_ & Hc & ->)]]]];
    try (cbn; now rewrite IH).
  cbn [String.append unescape]. apply Ascii.eqb_neq in Hc. rewrite Hc.
  now rewrite IH.
Qed.

(** EscapePathFstab leaves no blank, tab or newline in the path, and two
    different paths never get the same escaped form. *)
Theorem EscapePathFstab_spec :
  (forall path,
      shared.allChars (fun c => negb (isBlank c)) (shared.EscapePathFstab path)
      = true) /\
  (forall p q, shared.EscapePathFstab p = shared.EscapePathFstab q -> p = q).
Proof.
  split.
  - induction path as [|c rest IH]; [reflexivity|].
    cbn [shared.EscapePathFstab]. rewrite allChars_app, IH, andb_true_r.
    destruct (escapeByte_cases c)
      as [[-> ->]|[[-> ->]|[[-> ->]|[[-> ->]|(Hb & _ & ->)]]]];
      try reflexivity.
    cbn. now rewrite Hb.
  - intros p q H. rewrite <- (unescape_escape p), <- (unescape_escape q).
    now rewrite H.
Qed.

Example EscapePathFstab_sample :
  shared.EscapePathFstab "/some/wacky path\x" = "/some/wacky\040path\\x".
Proof. reflexivity. Qed.

(** ** Descriptors built by snapshotToProtobuf *)

Lemma load_alloc (v : string) (h : store) : load (length h) (h ++ [v])%list = v.
Proof. unfold load. rewrite app_nth2, Nat.sub_diag by lia. reflexivity. Qed.

Lemma rangeDevices_devices (name : ptr) l (h : store) :
  (name < length h)%nat ->
  Forall (fun d => DevName d = name) (fst (rangeDevices name l h)) /\
  map DevConfig (fst (rangeDevices name l h)) =
    map (fun kd => map configOf (snd kd)) l /\
  load name (snd (rangeDevices name l h)) = last (map fst l) (load name h).
Proof.
  revert h. induction l as [|[k d] l IH]; intros h Hn; cbn [rangeDevices].
  - cbn. auto.
  - specialize (IH (assign name k h)). rewrite length_assign in IH.
    specialize (IH Hn).
    destruct (rangeDevices name l (assign name k h)) as [ds h2].
    cbn [fst snd] in *. destruct IH as (I1 & I2 & I3). repeat split.
    + constructor; [reflexivity | assumption].
    + cbn. now rewrite I2.
    + rewrite I3, load_assign_same by assumption.
      cbn [map fst]. symmetry. apply last_cons_default.
Qed.

Lemma last_SplitN2 (name : string) :
  last (shared.SplitN2 name shared.SnapshotDelimiter) "" =
  match shared.ExtractSnapshotName name with
  | Some n => n
  | None => name
  end.
Proof.
  unfold shared.ExtractSnapshotName, shared.SplitN2.
  destruct (shared.cut shared.SnapshotDelimiter name) as [[a b]|]; reflexivity.
Qed.

Lemma map_readDevice_alias (h : store) (name : ptr) (ds : list Device) :
  Forall (fun d => DevName d = name) ds ->
  map (readDevice h) ds = map (fun d => mkDeviceV (load name h) (DevConfig d)) ds.
Proof.
  induction 1 as [|d ds Hd _ IH]; [reflexivity|].
  cbn [map]. rewrite IH. unfold readDevice at 1. now rewrite Hd.
Qed.

(** The descriptor that snapshotToProtobuf builds, as its readers see it,
    does not depend on the store it is built in: its name is the part of
    the container's name after the first "/" (the whole name when there is
    none), the local config and the device configs are kept in order, the
    architecture is narrowed to int32, and every local device carries the
    one name held by the loop variable, that of the last device visited. *)
Theorem snapshotToProtobuf_descriptor (c : container) (h : store) :
  let r := snapshotToProtobuf c h in
  readSnapshot (snd r) (fst r) =
  mkSnapshotV (nameOf c) (map configOf (cLocalConfig c)) (cProfiles c)
    (cIsEphemeral c)
    (map (fun kd => mkDeviceV (last (map fst (cLocalDevices c)) "")
                      (map configOf (snd kd)))
       (cLocalDevices c))
    (int32 (cArchitecture c)) (cIsStateful c).
Proof.
  cbv zeta. unfold snapshotToProtobuf, alloc.
  pose proof (rangeDevices_devices (length h) (cLocalDevices c) (h ++ [""])%list)
    as R.
  pose proof (rangeDevices_store (length h) (cLocalDevices c) (h ++ [""])%list)
    as [L _].
  rewrite length_app in R, L. cbn [length] in R, L.
  specialize (R ltac:(lia)).
  destruct (rangeDevices (length h) (cLocalDevices c) (h ++ [""])%list)
    as [ds h2].
  cbn [fst snd] in *. destruct R as (R1 & R2 & R3).
  unfold readSnapshot.
  cbn [Name LocalConfig Profiles Ephemeral LocalDevices Architecture Stateful].
  rewrite load_alloc, last_SplitN2. unfold nameOf. f_equal.
  rewrite (map_readDevice_alias _ (length h) ds R1).
  rewrite load_app by lia. rewrite R3, load_alloc.
  rewrite <- (map_map DevConfig
                (fun cfg => mkDeviceV (last (map fst (cLocalDevices c)) "") cfg)).
  rewrite R2, map_map. reflexivity.
Qed.

(** A container with two devices: both are sent under the name of the
    second. *)
Example snapshotToProtobuf_device_names :
  map vDevName (vLocalDevices (descriptorOf Sample.c1)) = ["root"; "root"].
Proof. reflexivity. Qed.

(** ** The two snapshot lists of the opening header *)

Lemma snapshotToProtobuf_wf (c : container) (h : store) :
  wfSnapshot (length (snd (snapshotToProtobuf c h))) (fst (snapshotToProtobuf c h)).
Proof.
  pose proof (snapshotToProtobuf_store c h) as [L _]. rewrite L. clear L.
  unfold snapshotToProtobuf, alloc.
  pose proof (rangeDevices_devices (length h) (cLocalDevices c) (h ++ [""])%list)
    as R.
  pose proof (rangeDevices_store (length h) (cLocalDevices c) (h ++ [""])%list)
    as [L _].
  rewrite length_app in R, L. cbn [length] in R, L.
  specialize (R ltac:(lia)).
  destruct (rangeDevices (length h) (cLocalDevices c) (h ++ [""])%list)
    as [ds h2].
  cbn [fst snd] in *. destruct R as (R1 & _ & _). split.
  - cbn [Name]. lia.
  - cbn [LocalDevices]. eapply Forall_impl; [|exact R1].
    cbn. intros d ->. lia.
Qed.

Lemma readSnapshot_stable (n : nat) (p : Snapshot) (h h' : store) :
  wfSnapshot n p ->
  (forall q, (q < n)%nat -> load q h' = load q h) ->
  readSnapshot h' p = readSnapshot h p.
Proof.
  intros [Hn Hd] Hq. unfold readSnapshot. rewrite (Hq _ Hn). f_equal.
  induction Hd as [|d ds Hd _ IH]; [reflexivity|].
  cbn [map]. rewrite IH. unfold readDevice. now rewrite (Hq _ Hd).
Qed.

Lemma descriptorOf_any_store (c : container) (h : store) :
  readSnapshot (snd (snapshotToProtobuf c h)) (fst (snapshotToProtobuf c h)) =
  descriptorOf c.
Proof.
  unfold descriptorOf.
  pose proof (snapshotToProtobuf_descriptor c []) as E. cbv zeta in E.
  destruct (snapshotToProtobuf c []) as [s0 h0]. cbn [fst snd] in E.
  rewrite E. apply snapshotToProtobuf_descriptor.
Qed.

Lemma rangeSnapshots_names (fullSnaps : list container) :
  forall h ps ns h',
  rangeSnapshots fullSnaps h = (Some (ps, ns), h') ->
  (length h <= length h')%nat /\
  (forall q, (q < length h)%nat -> load q h' = load q h) /\
  map (readSnapshot h') ps = map descriptorOf fullSnaps /\
  ns = map nameOf fullSnaps.
Proof.
  induction fullSnaps as [|snap rest IH]; intros h ps ns h' H;
    cbn [rangeSnapshots] in H.
  - injection H as <- <- <-. cbn. auto.
  - pose proof (snapshotToProtobuf_store snap h) as [S1 S2].
    pose proof (snapshotToProtobuf_wf snap h) as W.
    pose proof (descriptorOf_any_store snap h) as D.
    destruct (snapshotToProtobuf snap h) as [p h1]. cbn [fst snd] in *.
    destruct (shared.ExtractSnapshotName (cName snap)) as [n|] eqn:E;
      [|discriminate].
    destruct (rangeSnapshots rest h1) as [[[ps' ns']|] h2] eqn:R;
      [|discriminate].
    injection H as <- <- <-.
    destruct (IH _ _ _ _ R) as (I1 & I2 & I3 & I4).
    repeat split.
    + lia.
    + intros q Hq. rewrite I2 by lia. now apply S2.
    + cbn [map]. rewrite I3. f_equal.
      rewrite <- D. apply (readSnapshot_stable (length h1)); assumption.
    + cbn [map]. unfold nameOf at 1. rewrite E. now rewrite I4.
Qed.

Lemma vName_descriptorOf (c : container) : vName (descriptorOf c) = nameOf c.
Proof.
  rewrite <- (descriptorOf_any_store c []).
  pose proof (snapshotToProtobuf_descriptor c []) as E. cbv zeta in E.
  now rewrite E.
Qed.

Lemma source_header_snapshots (env : SourceEnv) (f : migrationFields)
    (c1 c2 c3 : Conn) r w :
  Source.Do env (attached f c1 c2 c3) = (r, w) ->
  Forall (fun hd => Snapshots hd = map descriptorOf (driverSnapshots env) /\
                    SnapshotNames hd = map nameOf (driverSnapshots env))
    (sentHeaders (log w)).
Proof.
  intros H. unfold driverSnapshots. destruct env, f. cbn.
  run H;
    try match goal with
        | E : rangeSnapshots _ _ = (Some _, _) |- _ =>
            apply rangeSnapshots_names in E; destruct E as (_ & _ & E1 & E2)
        end;
    done_run H; cbv [sentHeaders flat_map app];
    repeat constructor; cbn -[descriptorOf nameOf readSnapshot];
    try assumption; try reflexivity.
Qed.

(** Every opening header the source sends lists one descriptor and one name
    per snapshot of the driver, in the same order: the descriptor of each
    snapshot and the part of its name after the first "/".  The two lists
    are parallel, so a sink that receives such a header hands the received
    descriptors to its storage receiver unchanged. *)
Theorem opening_header_lists_are_parallel (env : SourceEnv)
    (f : migrationFields) (c1 c2 c3 : Conn) :
  Forall (fun hd =>
            Snapshots hd = map descriptorOf (driverSnapshots env) /\
            SnapshotNames hd = map nameOf (driverSnapshots env) /\
            map vName (Snapshots hd) = SnapshotNames hd /\
            forall c w, sinkSnapshots hd c w = (Ret (Snapshots hd), w))
    (sentHeaders (log (snd (Source.Do env (attached f c1 c2 c3))))).
Proof.
  destruct (Source.Do env (attached f c1 c2 c3)) as [r w] eqn:H.
  cbn [snd]. eapply Forall_impl;
    [|exact (source_header_snapshots env f c1 c2 c3 r w H)].
  intros hd [E1 E2].
  assert (map vName (Snapshots hd) = SnapshotNames hd) as P.
  { rewrite E1, E2, map_map. apply map_ext. exact vName_descriptorOf. }
  repeat split; try assumption.
  intros c w'. apply sinkSnapshots_same_length.
  rewrite <- P. now rewrite length_map.
Qed.

(** ** The control channel and its lock *)

(** send, sendControl and disconnect all wait for controlLock.  With the
    lock free, send writes the message and returns what ProtoSend
    returned, and sendControl with a nil error writes the control message
    and returns, both with the lock released again; sendControl with an
    error writes the control message and then blocks inside disconnect
    with the lock still held. *)
Theorem control_lock_discipline (w : World) :
  (controlLock (fields w) = true ->
   forall hd res err,
     send hd res w = (Block, w) /\ sendControl err w = (Block, w) /\
     disconnect w = (Block, w)) /\
  (controlLock (fields w) = false ->
   (forall hd res,
       fst (send hd res w) = Ret res /\
       fields (snd (send hd res w)) = fields w /\
       log (snd (send hd res w)) =
         (log w ++ [EvProtoSend (controlConn (fields w)) hd])%list) /\
   (fst (sendControl None w) = Ret tt /\
    fields (snd (sendControl None w)) = fields w /\
    log (snd (sendControl None w)) =
      (log w ++ [EvProtoSendControl (controlConn (fields w)) None])%list) /\
   (forall err,
       fst (sendControl (Some err) w) = Block /\
       controlLock (fields (snd (sendControl (Some err) w))) = true /\
       log (snd (sendControl (Some err) w)) =
         (log w ++ [EvProtoSendControl (controlConn (fields w)) (Some err)])%list)).
Proof.
  destruct w as [f n m l wk].
  destruct f as [lv cs cc lk crs crc fss fsc ct]. cbn [fields controlLock].
  split; intros ->.
  - intros hd res err. repeat split.
  - split; [|split].
    + intros hd [e|]; repeat split.
    + repeat split.
    + intros err. repeat split.
Qed.

Lemma control_lock_discipline_witness :
  fst (sendControl (Some Sample.ioError)
         (attached Sample.cold 1%nat 2%nat 3%nat)) = Block.
Proof.
  exact (proj1 (proj2 (proj2 (proj2 (control_lock_discipline
                                       (attached Sample.cold 1%nat 2%nat 3%nat))
                                eq_refl)) Sample.ioError)).
Defined.

(** disconnect, called with the lock free, writes the close frame on the
    control socket only if one is attached, forgets that socket, and closes
    the fs and criu sockets; a second disconnect writes no close frame any
    more and only closes fs and criu again. *)
Theorem disconnect_closes_control_once (w : World) :
  controlLock (fields w) = false ->
  let r1 := disconnect w in
  let r2 := disconnect (snd r1) in
  fst r1 = Ret tt /\
  fields (snd r1) = set_controlConn None (fields w) /\
  log (snd r1) =
    (log w
     ++ match controlConn (fields w) with
        | Some c => [EvWriteClose c]
        | None => []
        end
     ++ closes (fsConn (fields w)) ++ closes (criuConn (fields w)))%list /\
  fst r2 = Ret tt /\
  fields (snd r2) = fields (snd r1) /\
  log (snd r2) =
    (log (snd r1) ++ closes (fsConn (fields w)) ++ closes (criuConn (fields w)))%list.
Proof.
  destruct w as [f n m l wk].
  destruct f as [lv cs cc lk crs crc fss fsc ct]. cbn [fields controlLock].
  intros ->. destruct cc, fsc, crc; cbn;
    rewrite <- ?app_assoc, ?app_nil_r; cbn; repeat split.
Qed.

Lemma disconnect_closes_control_once_witness :
  log (snd (disconnect (snd (disconnect (attached Sample.cold 1%nat 2%nat 3%nat)))))
  = [EvWriteClose 1%nat; EvClose 2%nat; EvClose 2%nat].
Proof.
  exact (proj2 (proj2 (proj2 (proj2 (proj2
           (disconnect_closes_control_once
              (attached Sample.cold 1%nat 2%nat 3%nat) eq_refl)))))).
Defined.

(** ** Agreement on the filesystem type *)

(** Whatever the two fs types are, the type the source ends with after
    reading the sink's echo is the type the sink echoed.  When the types
    are equal nothing changes: the sink keeps the receiver of its storage
    and echoes its own type, and the source keeps its driver; the sink
    takes the rsync receiver exactly when the types differ. *)
Theorem negotiation_agrees (S K : MigrationFSType) (env : SourceEnv)
    (own : SourceDriver) (echo : MigrationHeader) :
  Fs echo = snd (chooseSink S K) ->
  fst (fst (renegotiate env S own echo)) = snd (chooseSink S K) /\
  (S = K ->
   chooseSink S K = (OwnDriver, K) /\
   renegotiate env S own echo = (S, echo, Some (OwnDriver, own))) /\
  (fst (chooseSink S K) = RsyncDriver <-> S <> K).
Proof.
  intros H. unfold renegotiate. rewrite H.
  destruct S, K; cbn; repeat split;
    try congruence; try discriminate; try (intros; exfalso; congruence).
Qed.

Lemma negotiation_agrees_witness :
  fst (fst (renegotiate Sample.mockSource ZFS Sample.driver
              (mkMigrationHeader ZFS None [] [] []))) = ZFS.
Proof.
  exact (proj1 (negotiation_agrees ZFS ZFS Sample.mockSource Sample.driver
                  (mkMigrationHeader ZFS None [] [] []) eq_refl)).
Defined.

(** ** Secrets from the source to the sink *)

(** NewMigrationSink, given the secrets that a source publishes with
    Metadata, recovers the source's three secrets with no socket attached;
    it takes the migration for live exactly when the source's criu secret
    is not empty, and fails only when that is so and criu is not installed
    on the destination. *)
Theorem sink_accepts_source_metadata (s : migrationFields) (c : container)
    (criuInstalled : bool) :
  NewMigrationSink c (Metadata s) criuInstalled =
  if negb (String.eqb (criuSecret s) "") && negb criuInstalled
  then inl (Errorf "Unable to perform container live migration. CRIU isn't installed on the destination server.")
  else inr (mkFields (negb (String.eqb (criuSecret s) "")) (controlSecret s)
              None false (criuSecret s) None (fsSecret s) None c).
Proof.
  unfold Metadata, NewMigrationSink.
  destruct (String.eqb_spec (criuSecret s) "") as [E|E]; cbn.
  - now rewrite E.
  - destruct criuInstalled; reflexivity.
Qed.

(** NewMigrationSink on a secrets map that lacks a key. *)
Example NewMigrationSink_missing_keys :
  NewMigrationSink Sample.c1 [("fs", "b")] true =
    inl (Errorf "Missing control secret") /\
  NewMigrationSink Sample.c1 [("control", "a")] true =
    inl (Errorf "Missing fs secret") /\
  NewMigrationSink Sample.c1 [("control", "a"); ("fs", "b")] false =
    inr (mkFields false "a" None false "" None "b" None Sample.c1).
Proof. repeat split. Qed.

(** ** The gate of the multiplexer *)

Ltac connect_steps :=
  repeat first
    [ progress cbn -[String.eqb]
    | rewrite String.eqb_refl
    | match goal with
      | E : String.eqb _ _ = false |- _ => rewrite E
      end ].

(** On a fresh source whose secrets are non-empty and pairwise different,
    attaching the expected channels in any order puts a value in
    allConnected exactly when the last of them is attached: after control,
    fs and criu for a live migration, after control and fs otherwise.
    Every one of these calls returns nil. *)
Theorem allConnected_fires_when_all_attached (f : migrationFields) :
  controlConn f = None -> criuConn f = None -> fsConn f = None ->
  controlSecret f <> "" -> fsSecret f <> "" ->
  controlSecret f <> fsSecret f ->
  (live f = true ->
   criuSecret f <> "" -> criuSecret f <> controlSecret f ->
   criuSecret f <> fsSecret f ->
   forall sl1 sl2 sl3 c1 c2 c3,
     NoDup [sl1; sl2; sl3] ->
     let r1 := Connect (secretOf f sl1) (inr c1) (start f) in
     let r2 := Connect (secretOf f sl2) (inr c2) (snd r1) in
     let r3 := Connect (secretOf f sl3) (inr c3) (snd r2) in
     fst r1 = Ret None /\ allConnected (snd r1) = 0%nat /\
     fst r2 = Ret None /\ allConnected (snd r2) = 0%nat /\
     fst r3 = Ret None /\ allConnected (snd r3) = 1%nat) /\
  (live f = false ->
   criuSecret f = "" ->
   forall sl1 sl2 c1 c2,
     NoDup [sl1; sl2] -> sl1 <> SlotCriu -> sl2 <> SlotCriu ->
     let r1 := Connect (secretOf f sl1) (inr c1) (start f) in
     let r2 := Connect (secretOf f sl2) (inr c2) (snd r1) in
     fst r1 = Ret None /\ allConnected (snd r1) = 0%nat /\
     fst r2 = Ret None /\ allConnected (snd r2) = 1%nat).
Proof.
  destruct f as [lv cs cc lk crs crc fss fsc ct]. cbn.
  intros -> -> -> Hcs Hfs Hcf.
  assert (String.eqb fss cs = false) as Hfc
      by (apply String.eqb_neq; congruence).
  apply String.eqb_neq in Hcs, Hfs.
  split.
  - intros -> Hcr Hrc Hrf.
    assert (String.eqb cs crs = false) as Hcr'
        by (apply String.eqb_neq; congruence).
    assert (String.eqb fss crs = false) as Hfr'
        by (apply String.eqb_neq; congruence).
    apply String.eqb_neq in Hcr, Hrc, Hrf, Hcf.
    intros sl1 sl2 sl3 c1 c2 c3 Hnd.
    inversion Hnd as [|? ? N1 Hnd2]; subst.
    inversion Hnd2 as [|? ? N2 _]; subst.
    destruct sl1, sl2, sl3;
      try (exfalso; apply N1; cbn; tauto);
      try (exfalso; apply N2; cbn; tauto);
      unfold Connect, slotOf, secretOf, start; connect_steps; repeat split.
  - intros -> ->.
    apply String.eqb_neq in Hcf.
    intros sl1 sl2 c1 c2 Hnd H1 H2.
    inversion Hnd as [|? ? N1 _]; subst.
    destruct sl1, sl2; try congruence;
      try (exfalso; apply N1; cbn; tauto);
      unfold Connect, slotOf, secretOf, start; connect_steps; repeat split.
Qed.

Lemma allConnected_fires_when_all_attached_witness :
  allConnected
    (snd (Connect "ctl" (inr 1%nat)
            (snd (Connect "fs" (inr 2%nat) (start Sample.cold))))) = 1%nat.
Proof.
  refine (proj2 (proj2 (proj2
            (proj2 (allConnected_fires_when_all_attached Sample.cold
                      eq_refl eq_refl eq_refl _ _ _)
               eq_refl eq_refl SlotFs SlotControl 2%nat 1%nat _ _ _)))).
  all: try discriminate.
  repeat constructor; cbn; intuition discriminate.
Defined.

(** ** More on the runs of the source *)

Ltac count_goal :=
  cbv [count filter length app isStorageStart isStorageStop isCheckpoint
         isSendAfterCheckpoint isCleanup isSendControl sentControls flat_map
         isDelete isWriteClose isRestore isShift isMigrationSink isTempDir
         isRemoveAll isCriuStep isTemplateApply isDial sinkCalls].

Lemma source_storage (env : SourceEnv) (f : migrationFields)
    (c1 c2 c3 : Conn) r w :
  Source.Do env (attached f c1 c2 c3) = (r, w) ->
  (live f = true ->
   count isStorageStart (log w) = 0%nat /\ count isStorageStop (log w) = 0%nat) /\
  (live f = false ->
   count isStorageStart (log w) = 1%nat /\
   count isCheckpoint (log w ++ worker w) = 0%nat /\
   count isSendAfterCheckpoint (log w) = 0%nat /\
   (r <> Block ->
    count isStorageStop (log w) =
    match StorageStart env with None => 1%nat | Some _ => 0%nat end) /\
   (r = Block -> count isStorageStop (log w) = 0%nat)).
Proof.
  intros H. destruct env, f. cbn.
  run H; done_run H; count_goal;
    (split; intros Hl; [|repeat split; intros]);
    try discriminate; try congruence; try reflexivity; auto.
Qed.

(** A migration that is not live starts the storage once and takes no
    checkpoint: it creates no checkpoint directory, writes no action
    script, runs no dump and sends nothing after a checkpoint.  When Do
    returns or panics, the deferred StorageStop has run exactly once if
    StorageStart succeeded (and not at all if it failed); when Do stays
    blocked, StorageStop has not run.  A live migration calls neither. *)
Theorem storage_started_and_stopped (env : SourceEnv) (f : migrationFields)
    (c1 c2 c3 : Conn) :
  let r := Source.Do env (attached f c1 c2 c3) in
  (live f = true ->
   count isStorageStart (log (snd r)) = 0%nat /\
   count isStorageStop (log (snd r)) = 0%nat) /\
  (live f = false ->
   count isStorageStart (log (snd r)) = 1%nat /\
   count isCheckpoint (log (snd r) ++ worker (snd r)) = 0%nat /\
   count isSendAfterCheckpoint (log (snd r)) = 0%nat /\
   (fst r <> Block ->
    count isStorageStop (log (snd r)) =
    match StorageStart env with None => 1%nat | Some _ => 0%nat end) /\
   (fst r = Block -> count isStorageStop (log (snd r)) = 0%nat)).
Proof.
  cbv zeta. destruct (Source.Do env (attached f c1 c2 c3)) as [r w] eqn:H.
  exact (source_storage env f c1 c2 c3 r w H).
Qed.

Lemma storage_started_and_stopped_witness :
  count isStorageStop
    (log (snd (Source.Do (Sample.source (inr Sample.driver) ZFS ZFS None None)
                 (attached Sample.cold 1%nat 2%nat 3%nat)))) = 1%nat.
Proof.
  refine (proj1 (proj2 (proj2 (proj2
            (proj2 (storage_started_and_stopped
                      (Sample.source (inr Sample.driver) ZFS ZFS None None)
                      Sample.cold 1%nat 2%nat 3%nat) eq_refl)))) _).
  discriminate.
Defined.

Lemma source_outcomes (env : SourceEnv) (f : migrationFields)
    (c1 c2 c3 : Conn) r w :
  Source.Do env (attached f c1 c2 c3) = (r, w) ->
  (r = Ret None ->
   (exists msg, recvControl env = inr msg /\ Success msg = true /\
                count isCleanup (log w) = 1%nat /\ sentControls (log w) = []) \/
   (live f = true /\ RuntimeLiblxcVersionAtLeast_2_0_4 env = true /\
    dumpDoneFirst env = false /\ Migrate env = None /\
    sentControls (log w) = [None])) /\
  (r = Panic ->
   Exists (fun snap => ~ has_delimiter (cName snap)) (driverSnapshots env) \/
   (rsyncMigrationSource env = None /\
    exists echo, recvHeader env = inr echo /\ Fs echo <> MigrationType env) \/
   (exists msg, recvControl env = inr msg /\ Success msg = false /\
                Message msg = None)).
Proof.
  intros H. unfold driverSnapshots. destruct env, f. cbn.
  run H;
    try match goal with
        | E : rangeSnapshots ?l ?h = (None, ?s) |- _ =>
            assert (fst (rangeSnapshots l h) = None) as Hnone
                by (rewrite E; reflexivity);
            apply rangeSnapshots_none_iff in Hnone
        end;
    done_run H; count_goal; (split; intros Hr); try discriminate.
  all: try (left; eexists; repeat split; reflexivity).
  all: try (right; repeat split; reflexivity).
  all: try (left; assumption).
  all: try (right; left; split; [reflexivity|];
            eexists; split; [reflexivity|]; cbn; discriminate).
  all: try (right; right; eexists; repeat split; reflexivity).
Qed.

(** The source's Do returns success only in two ways: the sink's final
    MigrationControl announced success, Cleanup having been called once and
    no control message sent by the source; or, in a live migration with an
    action script, the dump returned without an error before the action
    script reported in, in which case the source itself sent a success
    control.  And Do panics only when a snapshot of the driver has a name
    without "/", when the rsync driver needed after a type mismatch is nil,
    or when the sink's final control announces a failure without a
    message. *)
Theorem source_success_and_panic_causes (env : SourceEnv)
    (f : migrationFields) (c1 c2 c3 : Conn) :
  let r := Source.Do env (attached f c1 c2 c3) in
  (fst r = Ret None ->
   (exists msg, recvControl env = inr msg /\ Success msg = true /\
                count isCleanup (log (snd r)) = 1%nat /\
                sentControls (log (snd r)) = []) \/
   (live f = true /\ RuntimeLiblxcVersionAtLeast_2_0_4 env = true /\
    dumpDoneFirst env = false /\ Migrate env = None /\
    sentControls (log (snd r)) = [None])) /\
  (fst r = Panic ->
   Exists (fun snap => ~ has_delimiter (cName snap)) (driverSnapshots env) \/
   (rsyncMigrationSource env = None /\
    exists echo, recvHeader env = inr echo /\ Fs echo <> MigrationType env) \/
   (exists msg, recvControl env = inr msg /\ Success msg = false /\
                Message msg = None)).
Proof.
  cbv zeta. destruct (Source.Do env (attached f c1 c2 c3)) as [r w] eqn:H.
  exact (source_outcomes env f c1 c2 c3 r w H).
Qed.

Lemma source_success_and_panic_causes_witness :
  exists msg,
    recvControl (Sample.source (inr Sample.driver) ZFS ZFS None None) = inr msg /\
    Success msg = true.
Proof.
  destruct (proj1 (source_success_and_panic_causes
                     (Sample.source (inr Sample.driver) ZFS ZFS None None)
                     Sample.cold 1%nat 2%nat 3%nat) eq_refl)
    as [(msg & E & S & _)|(L & _)].
  - exists msg. split; assumption.
  - discriminate L.
Defined.

(** The sink's final message says "failure" and carries no text: Do panics
    on the nil message, after Cleanup, and the deferred StorageStop still
    runs. *)
Example source_panics_on_failure_without_message :
  let env := mkSourceEnv None (inr None) (inr Sample.driver) ZFS None
               (inr (mkMigrationHeader ZFS None [] [] [])) None
               (inl Sample.ioError) true (inl Sample.ioError)
               (inl Sample.ioError) None None true None None
               (inr (mkMigrationControl false None)) in
  let r := Source.Do env (attached Sample.cold 1%nat 2%nat 3%nat) in
  fst r = Panic /\
  count isCleanup (log (snd r)) = 1%nat /\
  count isStorageStop (log (snd r)) = 1%nat.
Proof. cbv. auto. Qed.

(** ** More on the runs of the sink *)

Lemma sink_worker (env : SinkEnv) (f : migrationFields) r w :
  Sink.Do env (start f) = (r, w) ->
  (count isMigrationSink (worker w) <= 1)%nat /\
  (live f = false -> count isCriuStep (worker w) = 0%nat) /\
  (count isShift (worker w) = 1%nat ->
   exists d s m, sinkCalls (worker w) = [(d, s, m)] /\ sinkRes env d = None) /\
  (count isRestore (worker w) = 1%nat ->
   count isShift (worker w) = 1%nat /\ ShiftIfNecessary env = None /\
   RsyncRecv env = None) /\
  (count isRemoveAll (worker w) <= 1)%nat /\
  (count isRemoveAll (worker w) = 1%nat <->
   count isTempDir (worker w) = 1%nat /\
   (exists d, sinkTempDir env = inr d) /\
   (sourceFirst env = None \/
    exists msg, sourceFirst env = Some (Some msg) /\ Success msg = true /\
                TemplateApply env = None)) /\
  (r = Panic ->
   sourceFirst env = Some (Some (mkMigrationControl false None)) /\
   count isDelete (log w) = 1%nat /\ count isWriteClose (log w) = 1%nat) /\
  (count isTemplateApply (log w) = 1%nat ->
   exists msg, sourceFirst env = Some (Some msg) /\ Success msg = true).
Proof.
  intros H. unfold sinkRes. destruct env, f. cbn.
  run H;
    try (exfalso; eapply legacySnapshots_not_none; eassumption);
    done_run H; count_goal;
    repeat (split; intros);
    repeat match goal with
           | E : _ /\ _ |- _ => destruct E
           | E : exists _, _ |- _ => destruct E
           | E : _ \/ _ |- _ => destruct E
           end;
    try discriminate; try congruence; try reflexivity; try lia.
  all: try (do 3 eexists; split; reflexivity).
  all: try (eexists; split; reflexivity).
  all: try (eexists; reflexivity).
  all: try (left; reflexivity).
  all: try (right; eexists; repeat split; reflexivity).
  all: try (match goal with
            | E : Some (Some _) = Some (Some ?m) |- _ =>
                injection E as E; subst m; cbn in *; congruence
            end).
Qed.

(** In every run of the sink's Do, reading the calls of the restore
    goroutine up to its write on the restore channel and of its deferred
    call: the storage receiver is called at most once; a migration that is
    not live creates no image directory and runs no checkpoint receive or
    restore; the ownership shift is only done after the storage receiver
    succeeded; the restore tool is only run after the receive, the shift
    and the checkpoint receive succeeded; the image directory is removed
    exactly when it was created and Do took the goroutine's result from
    the restore channel, so it is left behind when Do leaves on a message
    of the source, on the closing of the source's channel or on a failure
    of TemplateApply; Do panics only when the source announces a failure
    without a message, and then after deleting the container and closing
    the control socket; templates are only applied on a success message of
    the source. *)
Theorem sink_restore_order (env : SinkEnv) (f : migrationFields) :
  let r := Sink.Do env (start f) in
  let w := snd r in
  (count isMigrationSink (worker w) <= 1)%nat /\
  (live f = false -> count isCriuStep (worker w) = 0%nat) /\
  (count isShift (worker w) = 1%nat ->
   exists d s m, sinkCalls (worker w) = [(d, s, m)] /\ sinkRes env d = None) /\
  (count isRestore (worker w) = 1%nat ->
   count isShift (worker w) = 1%nat /\ ShiftIfNecessary env = None /\
   RsyncRecv env = None) /\
  (count isRemoveAll (worker w) <= 1)%nat /\
  (count isRemoveAll (worker w) = 1%nat <->
   count isTempDir (worker w) = 1%nat /\
   (exists d, sinkTempDir env = inr d) /\
   (sourceFirst env = None \/
    exists msg, sourceFirst env = Some (Some msg) /\ Success msg = true /\
                TemplateApply env = None)) /\
  (fst r = Panic ->
   sourceFirst env = Some (Some (mkMigrationControl false None)) /\
   count isDelete (log w) = 1%nat /\ count isWriteClose (log w) = 1%nat) /\
  (count isTemplateApply (log w) = 1%nat ->
   exists msg, sourceFirst env = Some (Some msg) /\ Success msg = true).
Proof.
  cbv zeta. destruct (Sink.Do env (start f)) as [r w] eqn:H.
  exact (sink_worker env f r w H).
Qed.

(** A live migration whose source closes its channel first: the image
    directory was created and is not removed. *)
Lemma sink_restore_order_witness :
  let w := snd (Sink.Do (Sample.sink (inr 1%nat) (Sample.opening []) ZFS None
                           (Some None))
                  (start Sample.running)) in
  count isTempDir (worker w) = 1%nat /\
  count isRemoveAll (worker w) <> 1%nat.
Proof.
  cbv zeta. split; [reflexivity|].
  intros H.
  apply (proj1 (proj2 (proj2 (proj2 (proj2 (proj2
           (sink_restore_order
              (Sample.sink (inr 1%nat) (Sample.opening []) ZFS None (Some None))
              Sample.running))))))) in H.
  destruct H as (_ & _ & [H | (msg & H & _)]); discriminate H.
Defined.

(** ** Sizes in bytes and in bits *)

Lemma drop_append (a b : string) : shared.drop (String.length a) (a ++ b) = b.
Proof. induction a as [|c a IH]; [destruct b; reflexivity | exact IH]. Qed.

Lemma take_append (a b : string) : sizes.take (String.length a) (a ++ b) = a.
Proof.
  induction a as [|c a IH]; [destruct b; reflexivity|]. cbn. now rewrite IH.
Qed.

Lemma take_all (a : string) : sizes.take (String.length a) a = a.
Proof. induction a as [|c a IH]; [reflexivity|]. cbn. now rewrite IH. Qed.

Lemma take_drop (n : nat) (s : string) : sizes.take n s ++ shared.drop n s = s.
Proof.
  revert s. induction n as [|n IH]; intros [|c s]; cbn; try reflexivity.
  now rewrite IH.
Qed.

Lemma get_append_r (a b : string) (k : nat) :
  String.get (String.length a + k) (a ++ b) = String.get k b.
Proof. induction a as [|c a IH]; [reflexivity | exact IH]. Qed.

Lemma fromEnd_append (k : nat) (a b : string) :
  (k <= String.length b)%nat ->
  sizes.fromEnd k (a ++ b) = sizes.fromEnd k b.
Proof.
  intros H. unfold sizes.fromEnd. rewrite length_append.
  replace (String.length a + String.length b - k)%nat
    with (String.length a + (String.length b - k))%nat by lia.
  apply get_append_r.
Qed.

Lemma fromEnd_lastByte (s : string) :
  sizes.fromEnd 1 s = shared.lastByte s.
Proof.
  destruct (shared.lastByte s) as [c|] eqn:E.
  - destruct (lastByte_some _ _ E) as [r ->].
    now rewrite fromEnd_append by (cbn; lia).
  - apply lastByte_none in E. now subst.
Qed.

Lemma digits_allChars (s : string) :
  forall acc v, 0 <= acc -> sizes.digits acc s = Some v ->
                shared.allChars shared.isDigit s = true /\ 0 <= v.
Proof.
  induction s as [|c s IH]; intros acc v Ha H; cbn in *.
  - injection H as <-. split; [reflexivity | lia].
  - destruct (shared.isDigit c); [|discriminate].
    apply IH in H; [exact H | lia].
Qed.

Lemma isDigit_IsNumber (c : ascii) :
  shared.isDigit c = true -> sizes.IsNumber c = true.
Proof. intros H. unfold sizes.IsNumber. now rewrite H. Qed.

Lemma ParseInt_digits (ds : string) (v : Z) :
  ds <> "" -> sizes.digits 0 ds = Some v -> v < 2 ^ 63 ->
  sizes.ParseInt ds = Some v.
Proof.
  intros Hne Hd Hv. destruct ds as [|c rest]; [congruence|].
  unfold sizes.ParseInt.
  assert (shared.isDigit c = true) as Hc.
  { apply digits_allChars in Hd as [Hd _]; [|lia]. cbn in Hd.
    now apply andb_prop in Hd as [Hd _]. }
  assert (Ascii.eqb c "+" = false) as H1
      by (destruct (Ascii.eqb_spec c "+") as [->|]; [discriminate | reflexivity]).
  assert (Ascii.eqb c "-" = false) as H2
      by (destruct (Ascii.eqb_spec c "-") as [->|]; [discriminate | reflexivity]).
  rewrite H1, H2. cbv zeta. cbn [orb]. rewrite Hd.
  destruct (Z.ltb_spec v (2 ^ 63)); [reflexivity | lia].
Qed.

Lemma numberAt_last_digit (ds : string) (v : Z) :
  ds <> "" -> sizes.digits 0 ds = Some v -> sizes.numberAt 1 ds = true.
Proof.
  intros Hne Hd. unfold sizes.numberAt. rewrite fromEnd_lastByte.
  destruct (shared.lastByte ds) as [c|] eqn:E.
  - apply isDigit_IsNumber. apply digits_allChars in Hd as [Hd _]; [|lia].
    exact (allChars_lastByte _ _ _ Hd E).
  - apply lastByte_none in E. congruence.
Qed.

Lemma nonempty_append (a b : string) : a <> "" -> String.eqb (a ++ b) "" = false.
Proof. destruct a; [congruence|]. reflexivity. Qed.

Lemma length_nonempty (a : string) : a <> "" -> (1 <= String.length a)%nat.
Proof. destruct a; [congruence|]. cbn. lia. Qed.

Lemma bitMultiplicator_some (suffix : string) (m : Z) :
  sizes.bitMultiplicator suffix = Some m ->
  String.length suffix = 4%nat /\ 0 < m.
Proof.
  unfold sizes.bitMultiplicator.
  repeat match goal with
         | |- context [String.eqb suffix ?x] =>
             destruct (String.eqb_spec suffix x) as [->|_]
         end; intros H; try discriminate; injection H as <-;
    split; try reflexivity; lia.
Qed.

(** ParseBitSizeString: the empty string is 0 bits; a string of one to
    four bytes is refused; a run of digits of value v below 2^63 followed
    by one of the six suffixes gives v times the power of 1000 of that
    suffix, computed in int64: a product beyond 2^63 - 1 wraps around and
    is returned without an error. *)
Theorem ParseBitSizeString_spec :
  sizes.ParseBitSizeString "" = inr 0 /\
  (forall input, input <> "" -> (String.length input < 5)%nat ->
                 sizes.ParseBitSizeString input = inl sizes.InvalidValue) /\
  (forall ds v suffix m,
      ds <> "" -> sizes.digits 0 ds = Some v -> v < 2 ^ 63 ->
      sizes.bitMultiplicator suffix = Some m ->
      sizes.ParseBitSizeString (ds ++ suffix) = inr (sizes.wrap64 (v * m))).
Proof.
  split; [reflexivity|]. split.
  - intros input Hne Hl. unfold sizes.ParseBitSizeString.
    apply String.eqb_neq in Hne. rewrite Hne.
    apply Nat.ltb_lt in Hl. now rewrite Hl.
  - intros ds v suffix m Hne Hd Hv Hm.
    pose proof (bitMultiplicator_some _ _ Hm) as [L _].
    pose proof (length_nonempty _ Hne) as L1.
    unfold sizes.ParseBitSizeString.
    rewrite nonempty_append by assumption. cbv zeta.
    rewrite length_append, L.
    replace (String.length ds + 4 - 4)%nat with (String.length ds) by lia.
    destruct (Nat.ltb_spec (String.length ds + 4) 5); [lia|].
    rewrite take_append, drop_append, (ParseInt_digits ds v), Hm by assumption.
    apply digits_allChars in Hd as [_ Hd]; [|lia].
    destruct (Z.ltb_spec v 0); [lia | reflexivity].
Qed.

Lemma ParseBitSizeString_spec_witness :
  sizes.ParseBitSizeString ("10" ++ "Ebit") = inr (-8446744073709551616).
Proof.
  refine (proj2 (proj2 ParseBitSizeString_spec) "10" 10 "Ebit" _ _ eq_refl _ eq_refl).
  - discriminate.
  - reflexivity.
Defined.

Lemma byteMultiplicator_some (suffix : string) (m : Z) :
  sizes.byteMultiplicator suffix = Some m ->
  exists c, suffix = String c "B" /\ sizes.IsNumber c = false.
Proof.
  unfold sizes.byteMultiplicator.
  repeat match goal with
         | |- context [String.eqb suffix ?x] =>
             destruct (String.eqb_spec suffix x) as [->|_]
         end; intros H; try discriminate; eexists; split; reflexivity.
Qed.

Lemma HasSuffix_last (s : string) :
  sizes.HasSuffix s " bytes" = true -> sizes.fromEnd 1 s = Some "s"%char.
Proof.
  unfold sizes.HasSuffix. intros H. apply andb_prop in H as [_ H].
  apply String.eqb_eq in H.
  rewrite <- (take_drop (String.length s - String.length " bytes") s), H.
  now rewrite fromEnd_append by (cbn; lia).
Qed.

Lemma HasSuffix_append (a b : string) : sizes.HasSuffix (a ++ b) b = true.
Proof.
  unfold sizes.HasSuffix. rewrite length_append.
  replace (String.length a + String.length b - String.length b)%nat
    with (String.length a) by lia.
  rewrite drop_append, String.eqb_refl, andb_true_r.
  apply Nat.leb_le. lia.
Qed.

(** ParseByteSizeString: the empty string is 0 bytes; a run of digits of
    value v below 2^63 is v bytes, alone or followed by "B" or " bytes";
    followed by one of the six suffixes kB ... EB it gives v times the
    power of 1024 of that suffix, computed in int64: a product beyond
    2^63 - 1 wraps around and is returned without an error. *)
Theorem ParseByteSizeString_spec :
  sizes.ParseByteSizeString "" = inr 0 /\
  (forall ds v,
      ds <> "" -> sizes.digits 0 ds = Some v -> v < 2 ^ 63 ->
      sizes.ParseByteSizeString ds = inr v /\
      sizes.ParseByteSizeString (ds ++ "B") = inr v /\
      sizes.ParseByteSizeString (ds ++ " bytes") = inr v /\
      forall suffix m,
        sizes.byteMultiplicator suffix = Some m ->
        sizes.ParseByteSizeString (ds ++ suffix) = inr (sizes.wrap64 (v * m))).
Proof.
  split; [reflexivity|].
  intros ds v Hne Hd Hv.
  pose proof (length_nonempty _ Hne) as L1.
  pose proof (numberAt_last_digit ds v Hne Hd) as Hlast.
  pose proof (ParseInt_digits ds v Hne Hd Hv) as HP.
  assert (0 <= v) as Hpos by (apply digits_allChars in Hd as [_ Hd]; [exact Hd | lia]).
  assert ((v <? 0) = false) as Hneg by (apply Z.ltb_ge; exact Hpos).
  assert (sizes.numberAt 2 (ds ++ "B") = true) as Hat2.
  { unfold sizes.numberAt, sizes.fromEnd. rewrite length_append.
    cbn [String.length].
    replace (String.length ds + 1 - 2)%nat with (String.length ds - 1)%nat by lia.
    rewrite <- append_correct1 by lia. exact Hlast. }
  split; [|split; [|split]].
  - unfold sizes.ParseByteSizeString.
    apply String.eqb_neq in Hne. rewrite Hne. cbv zeta. rewrite Hlast.
    rewrite Nat.sub_0_r, take_all, HP, Hneg. reflexivity.
  - unfold sizes.ParseByteSizeString.
    rewrite nonempty_append by assumption. cbv zeta.
    unfold sizes.numberAt at 1. rewrite fromEnd_append by (cbn; lia).
    cbn [sizes.fromEnd String.length Nat.sub String.get sizes.IsNumber].
    change (sizes.IsNumber "B") with false. cbv iota.
    rewrite Hat2, length_append. cbn [String.length].
    destruct (Nat.leb_spec 2 (String.length ds + 1)); [|lia].
    cbn [andb Ascii.eqb Bool.eqb].
    replace (String.length ds + 1 - 1)%nat with (String.length ds) by lia.
    rewrite take_append, HP, Hneg. reflexivity.
  - unfold sizes.ParseByteSizeString.
    rewrite nonempty_append by assumption. cbv zeta.
    unfold sizes.numberAt at 1. rewrite !fromEnd_append by (cbn; lia).
    cbn [sizes.fromEnd String.length Nat.sub String.get].
    change (sizes.IsNumber "s") with false. cbv iota.
    change (Ascii.eqb "s" "B") with false. rewrite andb_false_r. cbn [andb].
    rewrite HasSuffix_append, length_append. cbn [String.length].
    replace (String.length ds + 6 - 6)%nat with (String.length ds) by lia.
    rewrite take_append, HP, Hneg. reflexivity.
  - intros suffix m Hm.
    destruct (byteMultiplicator_some _ _ Hm) as (c & -> & Hc).
    unfold sizes.ParseByteSizeString.
    rewrite nonempty_append by assumption. cbv zeta.
    unfold sizes.numberAt. rewrite !fromEnd_append by (cbn; lia).
    cbn [sizes.fromEnd String.length Nat.sub String.get].
    change (sizes.IsNumber "B") with false. cbv iota.
    rewrite Hc, andb_false_r.
    destruct (sizes.HasSuffix (ds ++ String c "B") " bytes") eqn:HS.
    { apply HasSuffix_last in HS. rewrite fromEnd_append in HS by (cbn; lia).
      discriminate. }
    rewrite length_append. cbn [String.length].
    destruct (Nat.ltb_spec (String.length ds + 2) 3); [lia|].
    replace (String.length ds + 2 - 2)%nat with (String.length ds) by lia.
    rewrite take_append, drop_append, HP, Hneg, Hm. reflexivity.
Qed.

Lemma ParseByteSizeString_spec_witness :
  sizes.ParseByteSizeString ("8" ++ "EB") = inr (- 2 ^ 63).
Proof.
  refine (proj2 (proj2 (proj2 (proj2 ParseByteSizeString_spec "8" 8 _ eq_refl _)))
            "EB" _ eq_refl).
  - discriminate.
  - reflexivity.
Defined.
